(** * Notification and rating triggers of the restaurant platform

    A shallow embedding of the PL/pgSQL trigger functions

    - [recalculate_restaurant_rating], [handle_restaurant_rating_change] and
      [handle_order_status_rating_prompt]
      (supabase/test_all_notifications_and_filters.sql),
    - [handle_blog_comment_reply] (supabase/FIXED_COMPLETE_SCRIPT.sql),
    - [handle_blog_comment_notification]
      (supabase/create_blog_comment_notifications_table.sql),
    - the earlier versions of [handle_blog_comment_reply]
      (unnamed/part_007, supabase/SIMPLE_FIX_SCRIPT.sql),
    - [populate_profiles_from_auth], [handle_new_user] and the forced
      update of the profiles
      (supabase/test_all_notifications_and_filters.sql),
    - [get_user_display_name] and the update that uses it
      (supabase/fix_customer_names_corrected.sql),

    together with the tables they read and write, and of the client
    code that shows the notifications: the reducers, the sort and
    [extractBlogTitleFromMessage] of src/hooks/useCustomerNotifications.tsx
    and [handleNotificationClick] of
    src/components/CustomerNotificationBell.tsx.  A table is the list of
    its rows in insertion order, a nullable column is an [option], a
    statement that can raise returns a [result]. *)

From Stdlib Require Import ZArith List String Ascii Bool Lia.
From Stdlib Require Import Permutation Sorted.
Import ListNotations.

Local Open Scope string_scope.
Local Open Scope Z_scope.

(* ------------------------------------------------------------------ *)
(** ** Values *)

(** Row identifiers ([uuid] columns). *)
Definition uuid := N.

Definition uuid_eqb (a b : uuid) : bool := N.eqb a b.

(** SQL [=] between two nullable identifiers, as a condition of a WHERE
    clause reads it: a comparison with NULL is unknown, and an unknown
    condition selects nothing. *)
Definition sql_eq (a b : option uuid) : bool :=
  match a, b with
  | Some x, Some y => uuid_eqb x y
  | _, _ => false
  end.

(** [a IS DISTINCT FROM b] on nullable text: NULL is not distinct from
    NULL and is distinct from every value. *)
Definition is_distinct_from (a b : option string) : bool :=
  match a, b with
  | None, None => false
  | Some x, Some y => negb (String.eqb x y)
  | _, _ => true
  end.

(** [a IN (l)] on nullable text, as the condition of an IF reads it:
    NULL IN (...) is unknown and the branch is not taken. *)
Definition sql_in (a : option string) (l : list string) : bool :=
  match a with
  | None => false
  | Some x => existsb (String.eqb x) l
  end.

(** Errors a statement can raise. *)
Inductive error : Type :=
| unique_violation
| check_violation
| foreign_key_violation
| numeric_value_out_of_range.

Inductive result (A : Type) : Type :=
| Ok (a : A)
| Raise (e : error).

Arguments Ok {A} a.
Arguments Raise {A} e.

Definition bind {A B : Type} (m : result A) (k : A -> result B) : result B :=
  match m with
  | Ok a => k a
  | Raise e => Raise e
  end.

Notation "x <- m ;; k" := (bind m (fun x => k))
  (at level 61, m at next level, right associativity).

(* ------------------------------------------------------------------ *)
(** ** Fixed-point decimals

    A [numeric(p,s)] value is held as its unscaled integer: the
    [numeric(2,1)] 3.5 is [35], the [numeric(3,2)] 3.05 is [305]. *)

(** The quotient [a / b] ([0 < b]) rounded to the nearest integer, ties
    away from zero: the rounding of [round(numeric)] and of every
    coercion to a [numeric] of smaller scale. *)
Definition round_half_away (a b : Z) : Z :=
  if a <? 0 then - ((2 * (- a) + b) / (2 * b))
  else (2 * a + b) / (2 * b).

(** Coercion of the rational [num / den] to [numeric(p,s)]: round to [s]
    decimals, then fail when the result needs more than [p] digits. *)
Definition cast_numeric (p s : nat) (num den : Z) : result Z :=
  let v := round_half_away (num * 10 ^ Z.of_nat s) den in
  if Z.abs v <? 10 ^ Z.of_nat p then Ok v else Raise numeric_value_out_of_range.

(** A decimal of any scale, for columns whose declaration is outside the
    scripts ([restaurants.rating]) and for literals sent by a client:
    [unscaled / 10 ^ scale]. *)
Record decimal : Type := mkDecimal { unscaled : Z; scale : nat }.

(* ------------------------------------------------------------------ *)
(** ** Text

    A [text] value is a [string]; each [ascii] stands for one character,
    which is what [length] and [left] count. *)

(** The double quote character. *)
Definition dquote : string := String (ascii_of_nat 34) EmptyString.

(** [left(s, n)] for [n >= 0]: the first [n] characters. *)
Definition left (s : string) (n : nat) : string := substring 0 n s.

(** [split_part(s, '@', 1)]: what precedes the first ['@'], and the whole
    of [s] when it has none. *)
Fixpoint split_part_at_1 (s : string) : string :=
  match s with
  | EmptyString => EmptyString
  | String c rest =>
      if Ascii.eqb c "@"%char then EmptyString
      else String c (split_part_at_1 rest)
  end.

(** [COALESCE(a, d)]. *)
Definition coalesce {A : Type} (a : option A) (d : A) : A :=
  match a with
  | Some x => x
  | None => d
  end.

(** The preview both comment triggers embed in their message:
    [CASE WHEN length(c) > 100 THEN left(c, 97) || '...' ELSE c END]. *)
Definition preview (c : string) : string :=
  if (100 <? length c)%nat then left c 97 ++ "..." else c.

(** [s] occurs in [t] as a run of consecutive characters. *)
Fixpoint occurs_in (s t : string) : bool :=
  prefix s t ||
  match t with
  | EmptyString => false
  | String _ t' => occurs_in s t'
  end.

(** [n] copies of the character [c]. *)
Fixpoint repeat_char (c : ascii) (n : nat) : string :=
  match n with
  | O => EmptyString
  | S m => String c (repeat_char c m)
  end.

(* ------------------------------------------------------------------ *)
(** ** Tables *)

Module Restaurant.
  (** [public.restaurants], the columns the triggers touch.  The table
      is declared outside the scripts; [name] and [rating] are taken
      nullable, as the client's type ([rating: number | null]) has it. *)
Record row : Type := mk
    { id : uuid;
      name : option string;
      rating : option decimal }.
End Restaurant.

Module BlogPost.
  (** [public.blog_posts] (config-blog.sql). *)
Record row : Type := mk
    { id : uuid;
      restaurant_id : uuid;
      title : string;
      is_published : bool }.
End BlogPost.

Module BlogComment.
  (** [public.blog_comments] (config-blog.sql). *)
Record row : Type := mk
    { id : uuid;
      blog_post_id : uuid;
      customer_id : uuid;
      content : string;
      parent_comment_id : option uuid;
      is_deleted : bool }.
End BlogComment.

Module AuthUser.
  (** [auth.users], the columns read by the owner notification. *)
Record row : Type := mk
    { id : uuid;
      email : option string }.
End AuthUser.

Module Profile.
  (** [public.profiles]. *)
Record row : Type := mk
    { id : uuid;
      full_name : option string }.
End Profile.

Module Order.
  (** [public.orders], as the rating prompt assumes it: id, customer_id,
      restaurant_id, status.  The trigger tests the two references for
      NULL, so they are nullable here. *)
Record row : Type := mk
    { id : uuid;
      customer_id : option uuid;
      restaurant_id : option uuid;
      status : option string }.
End Order.

Module RestaurantRating.
  (** [public.restaurant_ratings]; [rating] is a [numeric(2,1)], held in
      tenths. *)
Record row : Type := mk
    { id : uuid;
      restaurant_id : uuid;
      customer_id : uuid;
      order_id : option uuid;
      rating : Z }.
End RestaurantRating.

Module CustomerNotification.
  (** [public.customer_notifications], the columns the triggers fill
      ([id] and [created_at] take their defaults). *)
Record row : Type := mk
    { customer_id : uuid;
      order_id : option uuid;
      title : string;
      message : string;
      status : string;
      blog_post_id : option uuid;
      reply_content : option string;
      restaurant_name : option string }.
End CustomerNotification.

Module BlogCommentNotification.
  (** [public.blog_comment_notifications] ([id] and [created_at] take
      their defaults). *)
Record row : Type := mk
    { restaurant_id : uuid;
      customer_id : uuid;
      blog_post_id : uuid;
      comment_id : uuid;
      title : string;
      message : string;
      status : string;
      comment_content : option string }.
End BlogCommentNotification.

Record database : Type := mkDatabase
  { restaurants : list Restaurant.row;
    blog_posts : list BlogPost.row;
    blog_comments : list BlogComment.row;
    users : list AuthUser.row;
    profiles : list Profile.row;
    restaurant_ratings : list RestaurantRating.row;
    customer_notifications : list CustomerNotification.row;
    blog_comment_notifications : list BlogCommentNotification.row }.

Definition set_restaurants (l : list Restaurant.row) (db : database) : database :=
  mkDatabase l (blog_posts db) (blog_comments db) (users db) (profiles db)
    (restaurant_ratings db) (customer_notifications db)
    (blog_comment_notifications db).

Definition set_blog_comments (l : list BlogComment.row) (db : database) : database :=
  mkDatabase (restaurants db) (blog_posts db) l (users db) (profiles db)
    (restaurant_ratings db) (customer_notifications db)
    (blog_comment_notifications db).

Definition set_restaurant_ratings (l : list RestaurantRating.row) (db : database)
  : database :=
  mkDatabase (restaurants db) (blog_posts db) (blog_comments db) (users db)
    (profiles db) l (customer_notifications db) (blog_comment_notifications db).

Definition set_customer_notifications (l : list CustomerNotification.row)
  (db : database) : database :=
  mkDatabase (restaurants db) (blog_posts db) (blog_comments db) (users db)
    (profiles db) (restaurant_ratings db) l (blog_comment_notifications db).

Definition set_blog_comment_notifications (l : list BlogCommentNotification.row)
  (db : database) : database :=
  mkDatabase (restaurants db) (blog_posts db) (blog_comments db) (users db)
    (profiles db) (restaurant_ratings db) (customer_notifications db) l.

(** The event a row trigger is fired for, with the row images PL/pgSQL
    binds to [OLD] and [NEW]. *)
Inductive trigger_event (R : Type) : Type :=
| INSERT (NEW : R)
| UPDATE (OLD NEW : R)
| DELETE (OLD : R).

Arguments INSERT {R} NEW.
Arguments UPDATE {R} OLD NEW.
Arguments DELETE {R} OLD.

(* ------------------------------------------------------------------ *)
(** ** Queries *)

(** [SELECT e INTO v FROM ...]: [v] takes the first row of the result and
    is NULL when there is no row (or when that row's [e] is NULL). *)
Definition select_into {A : Type} (rows : list (option A)) : option A :=
  match rows with
  | [] => None
  | x :: _ => x
  end.

(** [SELECT customer_id FROM blog_comments WHERE id = p]. *)
Definition comment_author (db : database) (p : uuid) : option uuid :=
  select_into
    (map (fun c => Some (BlogComment.customer_id c))
       (filter (fun c => uuid_eqb (BlogComment.id c) p) (blog_comments db))).

(** [SELECT r.name FROM blog_posts bp JOIN restaurants r
     ON bp.restaurant_id = r.id WHERE bp.id = post]. *)
Definition restaurant_name_of_post (db : database) (post : uuid) : option string :=
  select_into
    (flat_map
       (fun bp =>
          map Restaurant.name
            (filter (fun r => uuid_eqb (BlogPost.restaurant_id bp) (Restaurant.id r))
               (restaurants db)))
       (filter (fun bp => uuid_eqb (BlogPost.id bp) post) (blog_posts db))).

(** [SELECT bp.restaurant_id FROM blog_posts bp WHERE bp.id = post]. *)
Definition restaurant_of_post (db : database) (post : uuid) : option uuid :=
  select_into
    (map (fun bp => Some (BlogPost.restaurant_id bp))
       (filter (fun bp => uuid_eqb (BlogPost.id bp) post) (blog_posts db))).

(** [SELECT title FROM blog_posts WHERE id = post]. *)
Definition title_of_post (db : database) (post : uuid) : option string :=
  select_into
    (map (fun bp => Some (BlogPost.title bp))
       (filter (fun bp => uuid_eqb (BlogPost.id bp) post) (blog_posts db))).

(** [COALESCE(p.full_name, split_part(u.email, '@', 1))] for one row of
    [auth.users u LEFT JOIN profiles p]; [p] is all NULL when the user
    has no profile. *)
Definition display_name (full_name email : option string) : option string :=
  match full_name with
  | Some n => Some n
  | None => option_map split_part_at_1 email
  end.

(** [SELECT COALESCE(p.full_name, split_part(u.email, '@', 1))
     FROM auth.users u LEFT JOIN public.profiles p ON p.id = u.id
     WHERE u.id = cid]. *)
Definition customer_display_name (db : database) (cid : uuid) : option string :=
  select_into
    (flat_map
       (fun u =>
          match filter (fun p => uuid_eqb (Profile.id p) (AuthUser.id u))
                  (profiles db) with
          | [] => [display_name None (AuthUser.email u)]
          | ps => map (fun p => display_name (Profile.full_name p) (AuthUser.email u)) ps
          end)
       (filter (fun u => uuid_eqb (AuthUser.id u) cid) (users db))).

(* ------------------------------------------------------------------ *)
(** ** Reply notification (FIXED_COMPLETE_SCRIPT.sql) *)

(** [format('%s replied: "%s"', who, what)]. *)
Definition format_replied (who what : string) : string :=
  who ++ " replied: " ++ dquote ++ what ++ dquote.

(** The function also reads the post's title into [v_blog_title] and
    never uses it; the read has no effect and is left out.  The table
    [customer_notifications] is declared outside the scripts: its insert
    is taken to accept the row. *)
Definition handle_blog_comment_reply (NEW : BlogComment.row) (db : database)
  : database :=
  match BlogComment.parent_comment_id NEW with
  | None => db
  | Some parent =>
      match comment_author db parent with
      | None => db
      | Some v_customer_id =>
          let v_restaurant_name :=
            restaurant_name_of_post db (BlogComment.blog_post_id NEW) in
          let v_reply_content := BlogComment.content NEW in
          let v_notification_message :=
            format_replied (coalesce v_restaurant_name "Restaurant")
              (preview v_reply_content) in
          set_customer_notifications
            (customer_notifications db ++
               [CustomerNotification.mk v_customer_id None "Comment Reply"
                  v_notification_message "unread"
                  (Some (BlogComment.blog_post_id NEW))
                  (Some v_reply_content) v_restaurant_name])
            db
      end
  end.

(* ------------------------------------------------------------------ *)
(** ** Owner notification (create_blog_comment_notifications_table.sql) *)

(** The four foreign keys of [blog_comment_notifications]:
    [restaurant_id] references [restaurants(id)], [customer_id]
    references [profiles(id)], [blog_post_id] references
    [blog_posts(id)] and [comment_id] references [blog_comments(id)]. *)
Definition blog_comment_notification_references
  (n : BlogCommentNotification.row) (db : database) : bool :=
  existsb (fun r => uuid_eqb (Restaurant.id r)
                      (BlogCommentNotification.restaurant_id n))
    (restaurants db)
  && existsb (fun p => uuid_eqb (Profile.id p)
                         (BlogCommentNotification.customer_id n))
       (profiles db)
  && existsb (fun bp => uuid_eqb (BlogPost.id bp)
                          (BlogCommentNotification.blog_post_id n))
       (blog_posts db)
  && existsb (fun c => uuid_eqb (BlogComment.id c)
                         (BlogCommentNotification.comment_id n))
       (blog_comments db).

(** [INSERT INTO blog_comment_notifications]: the status CHECK and the
    constraint [blog_comment_notifications_comment_id_unique] as the
    row goes in, then the foreign keys, which are checked when the
    statement ends. *)
Definition insert_blog_comment_notification (n : BlogCommentNotification.row)
  (db : database) : result database :=
  if negb (sql_in (Some (BlogCommentNotification.status n)) ["unread"; "read"])
  then Raise check_violation
  else if existsb
            (fun m => uuid_eqb (BlogCommentNotification.comment_id m)
                        (BlogCommentNotification.comment_id n))
            (blog_comment_notifications db)
  then Raise unique_violation
  else if negb (blog_comment_notification_references n db)
  then Raise foreign_key_violation
  else Ok (set_blog_comment_notifications (blog_comment_notifications db ++ [n]) db).

(** [format('%s commented on your blog post "%s": "%s"', who, post, what)]. *)
Definition format_commented (who post what : string) : string :=
  who ++ " commented on your blog post " ++ dquote ++ post ++ dquote
      ++ ": " ++ dquote ++ what ++ dquote.

(** The function also reads the restaurant's name into
    [v_restaurant_name] and never uses it; the read is left out. *)
Definition handle_blog_comment_notification (NEW : BlogComment.row) (db : database)
  : result database :=
  match BlogComment.parent_comment_id NEW with
  | Some _ => Ok db
  | None =>
      match restaurant_of_post db (BlogComment.blog_post_id NEW) with
      | None => Ok db
      | Some v_restaurant_id =>
          let v_customer_name :=
            customer_display_name db (BlogComment.customer_id NEW) in
          let v_blog_title := title_of_post db (BlogComment.blog_post_id NEW) in
          let v_notification_message :=
            format_commented (coalesce v_customer_name "A customer")
              (coalesce v_blog_title "a blog post")
              (preview (BlogComment.content NEW)) in
          insert_blog_comment_notification
            (BlogCommentNotification.mk v_restaurant_id
               (BlogComment.customer_id NEW) (BlogComment.blog_post_id NEW)
               (BlogComment.id NEW) "New Blog Comment" v_notification_message
               "unread" (Some (BlogComment.content NEW)))
            db
      end
  end.

(** The table [blog_comments.customer_id] refers to.  config-blog.sql
    declares the column with [references auth.users(id)]; the profile
    scripts drop the constraint [blog_comments_customer_id_fkey] and add
    it again with [REFERENCES public.profiles(id)]. *)
Inductive customer_fkey : Type :=
| references_auth_users
| references_profiles.

Definition customer_known (fk : customer_fkey) (db : database) (cid : uuid)
  : bool :=
  match fk with
  | references_auth_users =>
      existsb (fun u => uuid_eqb (AuthUser.id u) cid) (users db)
  | references_profiles =>
      existsb (fun p => uuid_eqb (Profile.id p) cid) (profiles db)
  end.

(** The three foreign keys of [blog_comments], read in the table that
    holds the new row: [blog_post_id] references [blog_posts(id)],
    [customer_id] the table [fk] names, and [parent_comment_id], when
    it is not NULL, [blog_comments(id)]. *)
Definition blog_comment_references (fk : customer_fkey) (c : BlogComment.row)
  (db : database) : bool :=
  existsb (fun bp => uuid_eqb (BlogPost.id bp) (BlogComment.blog_post_id c))
    (blog_posts db)
  && customer_known fk db (BlogComment.customer_id c)
  && match BlogComment.parent_comment_id c with
     | None => true
     | Some parent =>
         existsb (fun x => uuid_eqb (BlogComment.id x) parent) (blog_comments db)
     end.

(** [INSERT INTO blog_comments]: the primary key as the row goes in,
    then, when the statement ends, the foreign keys and the two AFTER
    INSERT row triggers.  Triggers fire in the order of their names, the
    constraints' own ([RI_ConstraintTrigger_...]) before
    [trg_blog_comment_notification] and
    [trg_blog_comment_reply_notification]; whichever comes first, an
    error aborts the statement, and with it the row.  The foreign key
    that FIXED_COMPLETE_SCRIPT.sql gives
    [customer_notifications.blog_post_id] holds for the row the reply
    trigger writes once the comment's own does: it is the same post. *)
Definition insert_blog_comment (fk : customer_fkey) (c : BlogComment.row)
  (db : database) : result database :=
  if existsb (fun x => uuid_eqb (BlogComment.id x) (BlogComment.id c))
       (blog_comments db)
  then Raise unique_violation
  else
    let db1 := set_blog_comments (blog_comments db ++ [c]) db in
    if negb (blog_comment_references fk c db1)
    then Raise foreign_key_violation
    else
      db2 <- handle_blog_comment_notification c db1 ;;
      Ok (handle_blog_comment_reply c db2).

(* ------------------------------------------------------------------ *)
(** ** Rating aggregation (test_all_notifications_and_filters.sql) *)

(** The rating rows of one restaurant:
    [FROM restaurant_ratings WHERE restaurant_id = rid]. *)
Definition ratings_of (rid : uuid) (l : list RestaurantRating.row)
  : list RestaurantRating.row :=
  filter (fun r => uuid_eqb (RestaurantRating.restaurant_id r) rid) l.

Definition sum_ratings (l : list RestaurantRating.row) : Z :=
  fold_right (fun r acc => RestaurantRating.rating r + acc) 0 l.

(** [avg(rating)] over rows in tenths: NULL on no row, otherwise the
    quotient [num / den] (in units), kept as the pair.  PostgreSQL
    carries the quotient to sixteen significant digits or more before
    any cast; the pair keeps it exact. *)
Definition avg_rating (l : list RestaurantRating.row) : option (Z * Z) :=
  match l with
  | [] => None
  | _ :: _ => Some (sum_ratings l, 10 * Z.of_nat (List.length l))
  end.

(** [UPDATE restaurants SET rating = v WHERE id = rid]. *)
Definition update_restaurant_rating (rid : uuid) (v : decimal)
  (l : list Restaurant.row) : list Restaurant.row :=
  map (fun r =>
         if uuid_eqb (Restaurant.id r) rid
         then Restaurant.mk (Restaurant.id r) (Restaurant.name r) (Some v)
         else r) l.

Definition recalculate_restaurant_rating (p_restaurant_id : uuid) (db : database)
  : result database :=
  match avg_rating (ratings_of p_restaurant_id (restaurant_ratings db)) with
  | None => Ok db
  | Some (num, den) =>
      (* avg(rating)::numeric(3,2), in hundredths *)
      v_customer_avg <- cast_numeric 3 2 num den ;;
      (* round(v_customer_avg * 10) / 10.0 into a numeric(2,1), in tenths *)
      v_final <- cast_numeric 2 1 (round_half_away (v_customer_avg * 10) 100) 10 ;;
      Ok (set_restaurants
            (update_restaurant_rating p_restaurant_id (mkDecimal v_final 1)
               (restaurants db))
            db)
  end.

Definition handle_restaurant_rating_change
  (ev : trigger_event RestaurantRating.row) (db : database) : result database :=
  match ev with
  | INSERT NEW =>
      recalculate_restaurant_rating (RestaurantRating.restaurant_id NEW) db
  | UPDATE OLD NEW =>
      db1 <- (if negb (uuid_eqb (RestaurantRating.restaurant_id NEW)
                         (RestaurantRating.restaurant_id OLD))
              then recalculate_restaurant_rating (RestaurantRating.restaurant_id OLD) db
              else Ok db) ;;
      recalculate_restaurant_rating (RestaurantRating.restaurant_id NEW) db1
  | DELETE OLD =>
      recalculate_restaurant_rating (RestaurantRating.restaurant_id OLD) db
  end.

(** *** Statements on [restaurant_ratings] *)

(** The CHECK on a stored rating: [rating >= 1 and rating <= 5]. *)
Definition rating_check (tenths : Z) : bool :=
  (10 <=? tenths) && (tenths <=? 50).

(** Two rows collide on [unique (restaurant_id, customer_id, order_id)].
    A row whose [order_id] is NULL collides with none: the index treats
    NULLs as distinct. *)
Definition same_key (a b : RestaurantRating.row) : bool :=
  uuid_eqb (RestaurantRating.restaurant_id a) (RestaurantRating.restaurant_id b)
  && uuid_eqb (RestaurantRating.customer_id a) (RestaurantRating.customer_id b)
  && sql_eq (RestaurantRating.order_id a) (RestaurantRating.order_id b).

(** Column and table constraints on a row that is to sit next to the
    rows [others]: the coercion of the value to [numeric(2,1)], the
    CHECK, the primary key and the unique constraint. *)
Definition check_rating_row (rid restaurant customer : uuid) (order : option uuid)
  (value : decimal) (others : list RestaurantRating.row)
  : result RestaurantRating.row :=
  tenths <- cast_numeric 2 1 (unscaled value) (10 ^ Z.of_nat (scale value)) ;;
  let row := RestaurantRating.mk rid restaurant customer order tenths in
  if negb (rating_check tenths) then Raise check_violation
  else if existsb (fun r => uuid_eqb (RestaurantRating.id r) rid) others
  then Raise unique_violation
  else if existsb (same_key row) others then Raise unique_violation
  else Ok row.

(** What a client can run against the ratings. *)
Inductive statement : Type :=
| InsertRating (id restaurant customer : uuid) (order : option uuid) (value : decimal)
| UpdateRating (id restaurant customer : uuid) (order : option uuid) (value : decimal)
| DeleteRating (id : uuid)
| DeleteOrder (order : uuid).

(** The rows other than the one with primary key [rid]. *)
Definition rows_except (rid : uuid) (l : list RestaurantRating.row)
  : list RestaurantRating.row :=
  filter (fun r => negb (uuid_eqb (RestaurantRating.id r) rid)) l.

Definition find_rating (rid : uuid) (l : list RestaurantRating.row)
  : option RestaurantRating.row :=
  find (fun r => uuid_eqb (RestaurantRating.id r) rid) l.

(** The row with primary key [rid] replaced in place by [new]. *)
Definition replace_rating (rid : uuid) (new : RestaurantRating.row)
  (l : list RestaurantRating.row) : list RestaurantRating.row :=
  map (fun r => if uuid_eqb (RestaurantRating.id r) rid then new else r) l.

(** [order_id ... on delete set null]: the rows of a deleted order lose
    their reference. *)
Definition clear_order (order : uuid) (r : RestaurantRating.row)
  : RestaurantRating.row :=
  if sql_eq (RestaurantRating.order_id r) (Some order)
  then RestaurantRating.mk (RestaurantRating.id r)
         (RestaurantRating.restaurant_id r) (RestaurantRating.customer_id r)
         None (RestaurantRating.rating r)
  else r.

(** The row trigger fired once for each event of a statement. *)
Fixpoint fire_rating_triggers (evs : list (trigger_event RestaurantRating.row))
  (db : database) : result database :=
  match evs with
  | [] => Ok db
  | ev :: rest =>
      db1 <- handle_restaurant_rating_change ev db ;;
      fire_rating_triggers rest db1
  end.

(** One statement: the constraints, the change of [restaurant_ratings],
    then [trg_restaurant_ratings_change] for each row touched.  Any
    error aborts the statement. *)
Definition exec (st : statement) (db : database) : result database :=
  match st with
  | InsertRating rid restaurant customer order value =>
      NEW <- check_rating_row rid restaurant customer order value
               (restaurant_ratings db) ;;
      handle_restaurant_rating_change (INSERT NEW)
        (set_restaurant_ratings (restaurant_ratings db ++ [NEW]) db)
  | UpdateRating rid restaurant customer order value =>
      match find_rating rid (restaurant_ratings db) with
      | None => Ok db
      | Some OLD =>
          NEW <- check_rating_row rid restaurant customer order value
                   (rows_except rid (restaurant_ratings db)) ;;
          handle_restaurant_rating_change (UPDATE OLD NEW)
            (set_restaurant_ratings
               (replace_rating rid NEW (restaurant_ratings db)) db)
      end
  | DeleteRating rid =>
      match find_rating rid (restaurant_ratings db) with
      | None => Ok db
      | Some OLD =>
          handle_restaurant_rating_change (DELETE OLD)
            (set_restaurant_ratings (rows_except rid (restaurant_ratings db)) db)
      end
  | DeleteOrder order =>
      let touched :=
        filter (fun r => sql_eq (RestaurantRating.order_id r) (Some order))
          (restaurant_ratings db) in
      fire_rating_triggers
        (map (fun r => UPDATE r (clear_order order r)) touched)
        (set_restaurant_ratings (map (clear_order order) (restaurant_ratings db)) db)
  end.

(** A statement that raises leaves the database as it was. *)
Definition step (st : statement) (db : database) : database :=
  match exec st db with
  | Ok db' => db'
  | Raise _ => db
  end.

Definition run (sts : list statement) (db : database) : database :=
  fold_left (fun d st => step st d) sts db.

(** The displayed rating of a restaurant. *)
Definition rating_of_restaurant (rid : uuid) (db : database) : option decimal :=
  match find (fun r => uuid_eqb (Restaurant.id r) rid) (restaurants db) with
  | Some r => Restaurant.rating r
  | None => None
  end.

(* ------------------------------------------------------------------ *)
(** ** Rating prompt (test_all_notifications_and_filters.sql) *)

(** The notification the prompt inserts for customer [c] and order [o]. *)
Definition rating_prompt (c o : uuid) : CustomerNotification.row :=
  CustomerNotification.mk c (Some o) "Your order is completed"
    "Your order is completed and it will be served in a short while. Please give us rating for our service."
    "unread" None None None.

(** [SELECT id FROM restaurant_ratings WHERE restaurant_id = r
     AND customer_id = c AND order_id = o LIMIT 1]. *)
Definition existing_rating_id (db : database) (r c o : uuid) : option uuid :=
  select_into
    (map (fun x => Some (RestaurantRating.id x))
       (filter
          (fun x =>
             uuid_eqb (RestaurantRating.restaurant_id x) r
             && uuid_eqb (RestaurantRating.customer_id x) c
             && sql_eq (RestaurantRating.order_id x) (Some o))
          (restaurant_ratings db))).

(** The function is attached AFTER UPDATE ON orders; it still tests
    [TG_OP], and on the other events does nothing. *)
Definition handle_order_status_rating_prompt (ev : trigger_event Order.row)
  (db : database) : database :=
  match ev with
  | UPDATE OLD NEW =>
      match Order.customer_id NEW, Order.restaurant_id NEW with
      | Some c, Some r =>
          if sql_in (Order.status NEW) ["completed"; "served"]
             && is_distinct_from (Order.status OLD) (Order.status NEW)
          then
            match existing_rating_id db r c (Order.id NEW) with
            | None =>
                set_customer_notifications
                  (customer_notifications db ++ [rating_prompt c (Order.id NEW)])
                  db
            | Some _ => db
            end
          else db
      | _, _ => db
      end
  | INSERT _ => db
  | DELETE _ => db
  end.

(* ------------------------------------------------------------------ *)
(** ** What the specification says, in its own words *)

(** Follows the spec's words: "the first min(100, len(R.content))
    characters of R.content followed by an ellipsis iff
    len(R.content) > 100". *)
Definition spec_reply_preview (c : string) : string :=
  left c (Nat.min 100 (length c))
  ++ (if (100 <? length c)%nat then "..." else "").

(** Follows the spec's words: "the arithmetic mean of all rating values
    ... rounded to one decimal place using round-half-up semantics at
    the tenths digit"; ratings and result in tenths. *)
Definition spec_mean_one_decimal (l : list RestaurantRating.row) : Z :=
  round_half_away (sum_ratings l) (Z.of_nat (List.length l)).

(** Follows the spec's words: the rating rows of a "(restaurant,
    customer, order) triple", the order reference being optional. *)
Definition rows_of_triple (restaurant customer : uuid) (order : option uuid)
  (l : list RestaurantRating.row) : list RestaurantRating.row :=
  filter
    (fun x =>
       uuid_eqb (RestaurantRating.restaurant_id x) restaurant
       && uuid_eqb (RestaurantRating.customer_id x) customer
       && match RestaurantRating.order_id x, order with
          | Some a, Some b => uuid_eqb a b
          | None, None => true
          | _, _ => false
          end)
    l.

(* ------------------------------------------------------------------ *)
(** ** Sample data *)

Module Sample.

Definition bistro : uuid := 1%N.
Definition post : uuid := 10%N.
Definition alice : uuid := 5%N.
Definition owner : uuid := 6%N.
Definition root_comment : uuid := 20%N.
Definition reply_comment : uuid := 21%N.
Definition order1 : uuid := 30%N.

(** One restaurant with an administrator's rating of 4.0, one published
    post, two users; [alice] has a profile without a name and an
    account without an e-mail address. *)
Definition db0 : database :=
  mkDatabase
    [Restaurant.mk bistro (Some "Yangon Bistro") (Some (mkDecimal 40 1))]
    [BlogPost.mk post bistro "Hello" true]
    []
    [AuthUser.mk alice None; AuthUser.mk owner (Some "owner@bistro.example")]
    [Profile.mk alice None]
    [] [] [].

Definition root : BlogComment.row :=
  BlogComment.mk root_comment post alice "Great food!" None false.

(** [db0] after [root] has been inserted. *)
Definition db1 : database :=
  match insert_blog_comment references_auth_users root db0 with
  | Ok d => d
  | Raise _ => db0
  end.

(** A reply of 101 characters. *)
Definition reply : BlogComment.row :=
  BlogComment.mk reply_comment post owner (repeat_char "x" 101)
    (Some root_comment) false.

(** [db1] with a restaurant that has no name. *)
Definition db1_nameless : database :=
  set_restaurants [Restaurant.mk bistro None None] db1.

(** A reply whose parent is not in the table. *)
Definition orphan_reply : BlogComment.row :=
  BlogComment.mk reply_comment post owner "Thanks" (Some 99%N) false.

Definition paid_order : Order.row :=
  Order.mk order1 (Some alice) (Some bistro) (Some "paid").

Definition completed_order : Order.row :=
  Order.mk order1 (Some alice) (Some bistro) (Some "completed").

(** A completed order without a customer. *)
Definition anonymous_completed_order : Order.row :=
  Order.mk order1 None (Some bistro) (Some "completed").

(** Ten ratings of 3.0 and one of 3.5 for [bistro], each for an order
    and a customer of its own. *)
Definition rate (i : nat) (tenths : Z) : statement :=
  InsertRating (N.of_nat i) bistro (N.of_nat (100 + i))
    (Some (N.of_nat (200 + i))) (mkDecimal tenths 1).

Definition eleven_ratings : list statement :=
  map (fun i => rate i 30) (seq 1 10) ++ [rate 11 35].

End Sample.

(* ------------------------------------------------------------------ *)
(** ** Integrity of the ratings table *)

(** What the column types and constraints of [restaurant_ratings] keep
    true of its rows: the CHECK, the primary key, and the unique
    constraint (which a row without an order never violates). *)
Definition ratings_consistent (l : list RestaurantRating.row) : Prop :=
  Forall (fun x => 10 <= RestaurantRating.rating x <= 50) l
  /\ NoDup (map RestaurantRating.id l)
  /\ (forall a b, In a l -> In b l -> same_key a b = true ->
                  RestaurantRating.id a = RestaurantRating.id b).

(** The foreign key of [blog_comment_notifications.comment_id]: every
    owner notification refers to a comment of [blog_comments]. *)
Definition notifications_reference_comments (db : database) : Prop :=
  forall n, In n (blog_comment_notifications db) ->
            exists c, In c (blog_comments db)
                      /\ BlogComment.id c = BlogCommentNotification.comment_id n.

(** The first row of [auth.users] for an identifier, and of [profiles]. *)
Definition find_user (db : database) (cid : uuid) : option AuthUser.row :=
  find (fun u => uuid_eqb (AuthUser.id u) cid) (users db).

Definition find_profile (db : database) (cid : uuid) : option Profile.row :=
  find (fun p => uuid_eqb (Profile.id p) cid) (profiles db).

Definition find_post (db : database) (post : uuid) : option BlogPost.row :=
  find (fun bp => uuid_eqb (BlogPost.id bp) post) (blog_posts db).

(* ------------------------------------------------------------------ *)
(** ** Earlier versions of the reply trigger *)

Module Part007.

(** [format('The %s team replied to your comment on "%s". Click to read
    what they said!', who, post)]. *)
Definition format_team_replied (who post : string) : string :=
  "The " ++ who ++ " team replied to your comment on " ++ dquote ++ post
    ++ dquote ++ ". Click to read what they said!".

(** The first [handle_blog_comment_reply] (unnamed/part_007): the same
    guards, a message built from the restaurant's name and the post's
    title, and no [reply_content] or [restaurant_name].  The customer's
    display name is read into [v_customer_name] and never used. *)
Definition handle_blog_comment_reply (NEW : BlogComment.row) (db : database)
  : database :=
  match BlogComment.parent_comment_id NEW with
  | None => db
  | Some parent =>
      match comment_author db parent with
      | None => db
      | Some v_customer_id =>
          let v_restaurant_name :=
            restaurant_name_of_post db (BlogComment.blog_post_id NEW) in
          let v_blog_title := title_of_post db (BlogComment.blog_post_id NEW) in
          let v_notification_message :=
            format_team_replied (coalesce v_restaurant_name "restaurant")
              (coalesce v_blog_title "our latest post") in
          set_customer_notifications
            (customer_notifications db ++
               [CustomerNotification.mk v_customer_id None "Comment Reply"
                  v_notification_message "unread"
                  (Some (BlogComment.blog_post_id NEW)) None None])
            db
      end
  end.

End Part007.

Module SimpleFix.

(** [a || b] on nullable text: NULL as soon as one side is NULL. *)
Definition concat_null (a b : option string) : option string :=
  match a, b with
  | Some x, Some y => Some (x ++ y)
  | _, _ => None
  end.

(** [v_restaurant_name || ' replied: "' || CASE ... END || '"']: no
    COALESCE here, so the message is NULL when the name is. *)
Definition reply_message (v_restaurant_name : option string)
  (v_reply_content : string) : option string :=
  concat_null
    (concat_null
       (concat_null v_restaurant_name (Some (" replied: " ++ dquote)))
       (Some (preview v_reply_content)))
    (Some dquote).

(** [handle_blog_comment_reply] of SIMPLE_FIX_SCRIPT.sql.  The row it
    inserts has a NULL message when the restaurant's name does not
    resolve; what the table makes of that depends on its declaration,
    which is outside the scripts, so the result is [None] there. *)
Definition handle_blog_comment_reply (NEW : BlogComment.row) (db : database)
  : option database :=
  match BlogComment.parent_comment_id NEW with
  | None => Some db
  | Some parent =>
      match comment_author db parent with
      | None => Some db
      | Some v_customer_id =>
          let v_restaurant_name :=
            restaurant_name_of_post db (BlogComment.blog_post_id NEW) in
          let v_reply_content := BlogComment.content NEW in
          match reply_message v_restaurant_name v_reply_content with
          | None => None
          | Some message =>
              Some
                (set_customer_notifications
                   (customer_notifications db ++
                      [CustomerNotification.mk v_customer_id None
                         "Comment Reply" message "unread"
                         (Some (BlogComment.blog_post_id NEW))
                         (Some v_reply_content) v_restaurant_name])
                   db)
          end
      end
  end.

End SimpleFix.

(* ------------------------------------------------------------------ *)
(** ** Profiles (test_all_notifications_and_filters.sql) *)

Module SignUp.
(** [auth.users] as the profile functions read it.  [raw_user_meta_data]
    is the list of the text entries of the JSON object: [->>] yields
    NULL for a key that is absent, for a JSON null and for a NULL
    column alike. *)
Record row : Type := mk
  { id : uuid;
    email : option string;
    raw_user_meta_data : list (string * string) }.
End SignUp.

Module ProfileRecord.
(** [public.profiles] with the columns the profile functions write
    ([avatar_url] and the timestamps are not touched by them). *)
Record row : Type := mk
  { id : uuid;
    full_name : option string;
    email : option string }.
End ProfileRecord.

(** [meta ->> key]. *)
Definition json_text (meta : list (string * string)) (key : string)
  : option string :=
  option_map snd (find (fun kv => String.eqb (fst kv) key) meta).

(** [COALESCE(a1, ..., an)]: the first argument that is not NULL. *)
Fixpoint coalesce_all {A : Type} (l : list (option A)) : option A :=
  match l with
  | [] => None
  | Some x :: _ => Some x
  | None :: rest => coalesce_all rest
  end.

(** [COALESCE(meta->>'full_name', meta->>'name', split_part(email, '@', 1))]. *)
Definition sign_up_name (u : SignUp.row) : option string :=
  coalesce_all
    [json_text (SignUp.raw_user_meta_data u) "full_name";
     json_text (SignUp.raw_user_meta_data u) "name";
     option_map split_part_at_1 (SignUp.email u)].

Definition has_profile (uid : uuid) (ps : list ProfileRecord.row) : bool :=
  existsb (fun p => uuid_eqb (ProfileRecord.id p) uid) ps.

(** [INSERT INTO profiles (id, full_name, email) VALUES (...)
     ON CONFLICT (id) DO NOTHING]. *)
Definition insert_profile_or_nothing (p : ProfileRecord.row)
  (ps : list ProfileRecord.row) : list ProfileRecord.row :=
  if has_profile (ProfileRecord.id p) ps then ps else ps ++ [p].

(** The AFTER INSERT trigger on [auth.users]. *)
Definition handle_new_user (NEW : SignUp.row) (ps : list ProfileRecord.row)
  : list ProfileRecord.row :=
  insert_profile_or_nothing
    (ProfileRecord.mk (SignUp.id NEW) (sign_up_name NEW) (SignUp.email NEW)) ps.

(** The loop over the users whose id is not in [profiles] when the loop
    starts; each is inserted unless a profile with its id has appeared. *)
Definition populate_profiles_from_auth (us : list SignUp.row)
  (ps : list ProfileRecord.row) : list ProfileRecord.row :=
  fold_left
    (fun acc user_record =>
       insert_profile_or_nothing
         (ProfileRecord.mk (SignUp.id user_record) (sign_up_name user_record)
            (SignUp.email user_record))
         acc)
    (filter (fun u => negb (has_profile (SignUp.id u) ps)) us)
    ps.

(** [p.full_name IS NULL OR p.full_name = '' OR p.email IS NULL]. *)
Definition profile_incomplete (p : ProfileRecord.row) : bool :=
  match ProfileRecord.full_name p with
  | None => true
  | Some n => String.eqb n ""
  end
  || match ProfileRecord.email p with
     | None => true
     | Some _ => false
     end.

(** [UPDATE profiles p SET full_name = COALESCE(meta->>'full_name',
     meta->>'name', split_part(u.email, '@', 1), p.full_name),
     email = COALESCE(u.email, p.email)
     FROM auth.users u WHERE p.id = u.id AND (...incomplete...)]. *)
Definition force_update_profiles (us : list SignUp.row)
  (ps : list ProfileRecord.row) : list ProfileRecord.row :=
  map
    (fun p =>
       match find (fun u => uuid_eqb (ProfileRecord.id p) (SignUp.id u)) us with
       | Some u =>
           if profile_incomplete p
           then ProfileRecord.mk (ProfileRecord.id p)
                  (coalesce_all
                     [json_text (SignUp.raw_user_meta_data u) "full_name";
                      json_text (SignUp.raw_user_meta_data u) "name";
                      option_map split_part_at_1 (SignUp.email u);
                      ProfileRecord.full_name p])
                  (coalesce_all [SignUp.email u; ProfileRecord.email p])
           else p
       | None => p
       end)
    ps.

(** The two columns the owner notification reads. *)
Definition to_profile (p : ProfileRecord.row) : Profile.row :=
  Profile.mk (ProfileRecord.id p) (ProfileRecord.full_name p).

Definition to_user (u : SignUp.row) : AuthUser.row :=
  AuthUser.mk (SignUp.id u) (SignUp.email u).

(** *** The corrected name fix (fix_customer_names_corrected.sql) *)

(** [nullif(t, '')]. *)
Definition nullif_empty (t : option string) : option string :=
  match t with
  | Some s => if String.eqb s "" then None else Some s
  | None => None
  end.

(** [COALESCE(nullif(user_data->>'full_name', ''),
     nullif(user_data->>'name', ''), nullif(user_data->>'user_name', ''),
     split_part(user_email, '@', 1))]. *)
Definition get_user_display_name (user_data : list (string * string))
  (user_email : option string) : option string :=
  coalesce_all
    [nullif_empty (json_text user_data "full_name");
     nullif_empty (json_text user_data "name");
     nullif_empty (json_text user_data "user_name");
     option_map split_part_at_1 user_email].

(** [p.full_name IS NULL OR p.full_name = '']. *)
Definition name_missing (p : ProfileRecord.row) : bool :=
  match ProfileRecord.full_name p with
  | None => true
  | Some n => String.eqb n ""
  end.

(** [UPDATE profiles p SET full_name = COALESCE(p.full_name,
     get_user_display_name(u.raw_user_meta_data, u.email)),
     email = COALESCE(p.email, u.email)
     FROM auth.users u WHERE p.id = u.id AND (...name missing...)]. *)
Definition update_missing_names (us : list SignUp.row)
  (ps : list ProfileRecord.row) : list ProfileRecord.row :=
  map
    (fun p =>
       match find (fun u => uuid_eqb (ProfileRecord.id p) (SignUp.id u)) us with
       | Some u =>
           if name_missing p
           then ProfileRecord.mk (ProfileRecord.id p)
                  (coalesce_all
                     [ProfileRecord.full_name p;
                      get_user_display_name (SignUp.raw_user_meta_data u)
                        (SignUp.email u)])
                  (coalesce_all [ProfileRecord.email p; SignUp.email u])
           else p
       | None => p
       end)
    ps.

(* ------------------------------------------------------------------ *)
(** ** The notification hooks (src/hooks/useCustomerNotifications.tsx) *)

(** A character of the class of the two quote characters, double and
    single. *)
Definition is_quote (c : ascii) : bool :=
  Ascii.eqb c (ascii_of_nat 34) || Ascii.eqb c "'"%char.

(** The longest run of characters that are not quotes at the head of
    [s], and what follows it: what the greedy negated class with [+]
    consumes. *)
Fixpoint take_non_quotes (s : string) : string * string :=
  match s with
  | EmptyString => (EmptyString, EmptyString)
  | String c rest =>
      if is_quote c then (EmptyString, s)
      else let (run, tail) := take_non_quotes rest in (String c run, tail)
  end.

(** The group and the closing quote at the head of [s]: the run must
    not be empty and a
    character must follow it, which is then a quote.  A shorter run is
    followed by a character of the run, never by a quote, so
    backtracking finds nothing more. *)
Definition match_title (s : string) : option string :=
  match take_non_quotes s with
  | (EmptyString, _) => None
  | (_, EmptyString) => None
  | (run, String _ _) => Some run
  end.

(** The regular expression anchored at the head of [s]: the letters
    [on], a space, a quote, the group, a quote. *)
Definition match_here (s : string) : option string :=
  match s with
  | String a (String b (String c (String q rest))) =>
      if Ascii.eqb a "o"%char && Ascii.eqb b "n"%char && Ascii.eqb c " "%char
         && is_quote q
      then match_title rest
      else None
  | _ => None
  end.

(** [message.match(...)] with that expression: the group of the
    leftmost match; [None] is [undefined]. *)
Fixpoint extractBlogTitleFromMessage (message : string) : option string :=
  match match_here message with
  | Some t => Some t
  | None =>
      match message with
      | EmptyString => None
      | String _ rest => extractBlogTitleFromMessage rest
      end
  end.

Module Client.
(** [CustomerNotification] and [RestaurantBlogNotification]: the fields
    the reducers, the sort and the bell read.  [created_at] is the
    time [new Date(created_at).getTime()] gives, in milliseconds. *)
Record row : Type := mk
  { id : uuid;
    order_id : option uuid;
    title : string;
    message : string;
    status : string;
    created_at : Z;
    is_blog_reply : bool;
    blog_title : option string }.
End Client.

(** The realtime handler's enhancement of an inserted row, [id] and
    [created_at] being the defaults the table gave it. *)
Definition enhance (id : uuid) (created_at : Z) (r : CustomerNotification.row)
  : Client.row :=
  let reply := String.eqb (CustomerNotification.title r) "Comment Reply" in
  Client.mk id (CustomerNotification.order_id r) (CustomerNotification.title r)
    (CustomerNotification.message r) (CustomerNotification.status r) created_at
    reply
    (if reply then extractBlogTitleFromMessage (CustomerNotification.message r)
     else None).

(** The initial fetch's enhancement: the same, for a reply whose message
    is not empty; [is_blog_reply] and [blog_title] stay undefined
    otherwise. *)
Definition enhance_fetched (id : uuid) (created_at : Z)
  (r : CustomerNotification.row) : Client.row :=
  let reply :=
    String.eqb (CustomerNotification.title r) "Comment Reply"
    && negb (String.eqb (CustomerNotification.message r) "") in
  Client.mk id (CustomerNotification.order_id r) (CustomerNotification.title r)
    (CustomerNotification.message r) (CustomerNotification.status r) created_at
    reply
    (if reply then extractBlogTitleFromMessage (CustomerNotification.message r)
     else None).

(** [a.slice(0, limit)] for an integer [limit]: a negative [limit]
    counts from the end. *)
Definition slice_to {A : Type} (limit : Z) (a : list A) : list A :=
  if limit <? 0
  then firstn (Z.to_nat (Z.max (Z.of_nat (List.length a) + limit) 0)) a
  else firstn (Z.to_nat limit) a.

(** The state update of the realtime handler:
    [prev.some(n => n.id === incoming.id) ? prev
     : [incoming, ...prev].slice(0, limit)]. *)
Definition receive (limit : Z) (incoming : Client.row) (prev : list Client.row)
  : list Client.row :=
  if existsb (fun n => uuid_eqb (Client.id n) (Client.id incoming)) prev
  then prev
  else slice_to limit (incoming :: prev).

Definition is_unread (n : Client.row) : bool :=
  String.eqb (Client.status n) "unread".

(** [notifications.filter(n => n.status === 'unread').length]. *)
Definition unreadCount (notifications : list Client.row) : nat :=
  List.length (filter is_unread notifications).

(** [{ ...n, status: 'read' }]. *)
Definition as_read (n : Client.row) : Client.row :=
  Client.mk (Client.id n) (Client.order_id n) (Client.title n)
    (Client.message n) "read" (Client.created_at n) (Client.is_blog_reply n)
    (Client.blog_title n).

(** [markAsRead(id)]: nothing for a missing id ([None]) or when the
    store reports an error; otherwise the state update
    [prev.map(n => n.id === id ? { ...n, status: 'read' } : n)]. *)
Definition markAsRead (id : option uuid) (store_error : bool)
  (prev : list Client.row) : list Client.row :=
  match id with
  | None => prev
  | Some i =>
      if store_error then prev
      else map (fun n => if uuid_eqb (Client.id n) i then as_read n else n) prev
  end.

(** [markAllAsRead()] for a signed-in user (an owner with a restaurant
    in the owner's hook): [notifications] is the list the callback
    closed over, [prev] the state when the update runs. *)
Definition markAllAsRead (notifications : list Client.row) (store_error : bool)
  (prev : list Client.row) : list Client.row :=
  match notifications with
  | [] => prev
  | _ :: _ =>
      let unreadIds := map Client.id (filter is_unread notifications) in
      match unreadIds with
      | [] => prev
      | _ :: _ =>
          if store_error then prev
          else map (fun n =>
                      if existsb (uuid_eqb (Client.id n)) unreadIds
                      then as_read n else n) prev
      end
  end.

(** The comparator of [sortedNotifications]: unread first, then the
    newest first. *)
Definition compare_notifications (a b : Client.row) : Z :=
  if negb (String.eqb (Client.status a) (Client.status b))
  then (if String.eqb (Client.status a) "unread" then -1 else 1)
  else Client.created_at b - Client.created_at a.

(** [x] put before the first element it does not come after. *)
Fixpoint insert_notification (x : Client.row) (l : list Client.row)
  : list Client.row :=
  match l with
  | [] => [x]
  | y :: rest =>
      if compare_notifications x y <=? 0 then x :: l
      else y :: insert_notification x rest
  end.

(** [[...notifications].sort(compare)].  [Array.prototype.sort] is
    stable, and on a consistent comparator its result is the one stable
    arrangement in order; insertion from the right computes it. *)
Definition sortedNotifications (notifications : list Client.row)
  : list Client.row :=
  fold_right insert_notification [] notifications.

(* ------------------------------------------------------------------ *)
(** ** The bell (src/components/CustomerNotificationBell.tsx) *)

(** Where a click on a notification leads. *)
Inductive navigation : Type :=
| to_blog
| to_order (order : uuid)
| close_dropdown.

(** [handleNotificationClick]: the notification is marked read, then a
    reply leads to the blog, a notification with an order to that
    order's page, any other one closes the dropdown. *)
Definition handleNotificationClick (notification : Client.row)
  (store_error : bool) (prev : list Client.row)
  : list Client.row * navigation :=
  (markAsRead (Some (Client.id notification)) store_error prev,
   if Client.is_blog_reply notification then to_blog
   else match Client.order_id notification with
        | Some o => to_order o
        | None => close_dropdown
        end).

(* ------------------------------------------------------------------ *)
(** ** Vocabulary of the statements *)

(** [s] has no quote character, double or single. *)
Fixpoint no_quotes (s : string) : bool :=
  match s with
  | EmptyString => true
  | String c rest => negb (is_quote c) && no_quotes rest
  end.

(** [s] ends with the letters [on] and a space. *)
Fixpoint ends_with_on (s : string) : bool :=
  String.eqb s "on "
  || match s with
     | EmptyString => false
     | String _ rest => ends_with_on rest
     end.

(** [s] has no at sign. *)
Fixpoint no_at_sign (s : string) : bool :=
  match s with
  | EmptyString => true
  | String c rest => negb (Ascii.eqb c "@"%char) && no_at_sign rest
  end.

(** What a reply notification says about whom and about which post. *)
Definition notification_core (r : CustomerNotification.row)
  : uuid * option uuid * string * string * option uuid :=
  (CustomerNotification.customer_id r, CustomerNotification.order_id r,
   CustomerNotification.title r, CustomerNotification.status r,
   CustomerNotification.blog_post_id r).

(** [a] may stand before [b] in the owner's list: an unread one is not
    behind a read one, and of two with the same status the older is
    not ahead. *)
Definition comes_before (a b : Client.row) : Prop :=
  (is_unread b = true -> is_unread a = true)
  /\ (Client.status a = Client.status b ->
      Client.created_at b <= Client.created_at a).

(** The status is one of the two the tables' CHECK and the client's
    type allow. *)
Definition binary_status (n : Client.row) : Prop :=
  Client.status n = "unread" \/ Client.status n = "read".

(** The profile the sign-up trigger and the backfill loop write for a
    user. *)
Definition profile_of (u : SignUp.row) : ProfileRecord.row :=
  ProfileRecord.mk (SignUp.id u) (sign_up_name u) (SignUp.email u).

(** [m] is [n] but for its status. *)
Definition same_but_status (n m : Client.row) : Prop :=
  Client.id m = Client.id n
  /\ Client.order_id m = Client.order_id n
  /\ Client.title m = Client.title n
  /\ Client.message m = Client.message n
  /\ Client.created_at m = Client.created_at n
  /\ Client.is_blog_reply m = Client.is_blog_reply n
  /\ Client.blog_title m = Client.blog_title n.

(** The statement leaves the rating row [rid] of the order [order]
    alone: it is not an update or a delete of that row, and not the
    deletion of that order. *)
Definition leaves_rating (rid order : uuid) (st : statement) : bool :=
  match st with
  | InsertRating _ _ _ _ _ => true
  | UpdateRating i _ _ _ _ => negb (uuid_eqb rid i)
  | DeleteRating i => negb (uuid_eqb rid i)
  | DeleteOrder o => negb (uuid_eqb order o)
  end.

(** Two databases that differ at most in the rating rows and in the
    displayed ratings: the same restaurants under the same names, and
    every other table equal. *)
Definition same_outside_ratings (db db' : database) : Prop :=
  map Restaurant.id (restaurants db') = map Restaurant.id (restaurants db)
  /\ map Restaurant.name (restaurants db') = map Restaurant.name (restaurants db)
  /\ blog_posts db' = blog_posts db
  /\ blog_comments db' = blog_comments db
  /\ users db' = users db
  /\ profiles db' = profiles db
  /\ customer_notifications db' = customer_notifications db
  /\ blog_comment_notifications db' = blog_comment_notifications db.

(* ------------------------------------------------------------------ *)
(** ** Text lemmas *)

Lemma prefix_app (s t : string) :
  prefix s t = true <-> exists b, t = s ++ b.
Proof.
  revert t; induction s as [|c s IH]; intros t; simpl.
  - destruct t; split; intros; eauto.
  - destruct t as [|d t]; simpl.
    + split; [discriminate|]. intros [b Hb]; discriminate.
    + destruct (ascii_dec c d) as [->|Hne].
      * rewrite IH. split; intros [b Hb]; exists b; congruence.
      * split; [discriminate|]. intros [b Hb]. congruence.
Qed.

Lemma occurs_in_app (s t : string) :
  occurs_in s t = true <-> exists a b, t = a ++ s ++ b.
Proof.
  induction t as [|d t IH].
  - cbn [occurs_in]. rewrite orb_false_r, prefix_app. split.
    + intros [b Hb]. exists EmptyString, b. exact Hb.
    + intros [a [b Hb]]. destruct a; simpl in Hb; [eauto|discriminate].
  - cbn [occurs_in]. rewrite orb_true_iff, prefix_app, IH. split.
    + intros [[b Hb]|[a [b Hb]]].
      * exists EmptyString, b. exact Hb.
      * exists (String d a), b. simpl. congruence.
    + intros [a [b Hb]]. destruct a as [|e a]; simpl in Hb.
      * left. eauto.
      * right. exists a, b. congruence.
Qed.

(* ------------------------------------------------------------------ *)
(** ** The reply notification *)

Lemma preview_cases (c : string) :
  preview c = if (length c <=? 100)%nat then c else left c 97 ++ "...".
Proof.
  unfold preview. destruct (Nat.ltb_spec 100 (length c)) as [H|H];
    destruct (Nat.leb_spec (length c) 100) as [H'|H']; try reflexivity; lia.
Qed.

(** C3, as amended.  A reply whose parent's author resolves adds exactly
    one customer notification and no owner notification; its recipient
    is that author, it is unread, it links the reply's post, it carries
    the whole reply in [reply_content], and its message quotes the reply
    whole when it has at most 100 characters and otherwise its first 97
    characters followed by three dots. *)
Theorem reply_notification_created (db : database) (NEW : BlogComment.row)
  (parent author : uuid) :
  BlogComment.parent_comment_id NEW = Some parent ->
  comment_author db parent = Some author ->
  exists n,
    customer_notifications (handle_blog_comment_reply NEW db)
      = (customer_notifications db ++ [n])%list
    /\ blog_comment_notifications (handle_blog_comment_reply NEW db)
      = blog_comment_notifications db
    /\ CustomerNotification.customer_id n = author
    /\ CustomerNotification.reply_content n = Some (BlogComment.content NEW)
    /\ CustomerNotification.status n = "unread"
    /\ CustomerNotification.blog_post_id n = Some (BlogComment.blog_post_id NEW)
    /\ CustomerNotification.order_id n = None
    /\ CustomerNotification.message n
       = coalesce (restaurant_name_of_post db (BlogComment.blog_post_id NEW))
           "Restaurant"
           ++ " replied: " ++ dquote
           ++ (if (length (BlogComment.content NEW) <=? 100)%nat
               then BlogComment.content NEW
               else left (BlogComment.content NEW) 97 ++ "...")
           ++ dquote.
Proof.
  intros Hp Ha. unfold handle_blog_comment_reply. rewrite Hp, Ha.
  eexists. cbn. repeat split.
  unfold format_replied. rewrite preview_cases. reflexivity.
Qed.

Lemma reply_notification_created_witness :
  exists n,
    customer_notifications (handle_blog_comment_reply Sample.reply Sample.db1)
      = (customer_notifications Sample.db1 ++ [n])%list
    /\ CustomerNotification.customer_id n = Sample.alice
    /\ CustomerNotification.message n
       = "Yangon Bistro replied: " ++ dquote
           ++ repeat_char "x" 97 ++ "..." ++ dquote.
Proof.
  destruct (reply_notification_created Sample.db1 Sample.reply
              Sample.root_comment Sample.alice eq_refl eq_refl)
    as [n [H1 [_ [H3 _]]]].
  exists n. split; [exact H1|]. split; [exact H3|].
  vm_compute in H1. injection H1 as <-. reflexivity.
Defined.

(** C3, as the claim has it, fails on a reply of 101 characters: the
    notification created quotes 97 of them, so its message does not
    contain the first 100 followed by an ellipsis. *)
Lemma reply_preview_is_not_first_100 :
  BlogComment.parent_comment_id Sample.reply = Some Sample.root_comment
  /\ comment_author Sample.db1 Sample.root_comment = Some Sample.alice
  /\ length (BlogComment.content Sample.reply) = 101%nat
  /\ List.length (customer_notifications
                    (handle_blog_comment_reply Sample.reply Sample.db1)) = 1%nat
  /\ forall n,
       In n (customer_notifications
               (handle_blog_comment_reply Sample.reply Sample.db1)) ->
       ~ exists a b,
           CustomerNotification.message n
           = a ++ spec_reply_preview (BlogComment.content Sample.reply) ++ b.
Proof.
  repeat split.
  intros n Hn Hex. apply occurs_in_app in Hex.
  vm_compute in Hn. destruct Hn as [<-|[]].
  vm_compute in Hex. discriminate.
Qed.

(** The parent of a reply resolves to an author exactly when a comment
    with the parent's identifier is in the table: [customer_id] is
    never NULL. *)
Lemma comment_author_none (db : database) (p : uuid) :
  comment_author db p = None
  <-> existsb (fun x => uuid_eqb (BlogComment.id x) p) (blog_comments db) = false.
Proof.
  unfold comment_author.
  induction (blog_comments db) as [|x l IH]; cbn [filter existsb].
  - split; reflexivity.
  - destruct (uuid_eqb (BlogComment.id x) p); cbn [map select_into orb].
    + split; discriminate.
    + exact IH.
Qed.

(** C6, as amended.  On a reply whose parent comment does not resolve
    to an author the reply trigger returns without a notification and
    without an error; the insert of such a reply is refused all the
    same, by the foreign key of [parent_comment_id], so that every
    reply that is inserted resolves its parent and leaves the parent's
    author one notification.  A reply whose parent resolves but whose
    post leads to no restaurant name still adds its notification, with
    the label Restaurant in the message and no stored restaurant
    name. *)
Theorem reply_resolution_misses (fk : customer_fkey) (db : database)
  (NEW : BlogComment.row) (parent : uuid) :
  BlogComment.parent_comment_id NEW = Some parent ->
  (comment_author db parent = None ->
   handle_blog_comment_reply NEW db = db)
  /\ (comment_author (set_blog_comments (blog_comments db ++ [NEW]) db) parent
        = None ->
      insert_blog_comment fk NEW db = Raise unique_violation
      \/ insert_blog_comment fk NEW db = Raise foreign_key_violation)
  /\ (forall db',
        insert_blog_comment fk NEW db = Ok db' ->
        exists author n,
          comment_author (set_blog_comments (blog_comments db ++ [NEW]) db) parent
            = Some author
          /\ customer_notifications db'
             = (customer_notifications db ++ [n])%list
          /\ CustomerNotification.customer_id n = author)
  /\ (forall author,
        comment_author db parent = Some author ->
        restaurant_name_of_post db (BlogComment.blog_post_id NEW) = None ->
        exists n,
          customer_notifications (handle_blog_comment_reply NEW db)
            = (customer_notifications db ++ [n])%list
          /\ CustomerNotification.customer_id n = author
          /\ CustomerNotification.restaurant_name n = None
          /\ CustomerNotification.message n
             = "Restaurant replied: " ++ dquote
                 ++ preview (BlogComment.content NEW) ++ dquote).
Proof.
  intros Hp. split; [|split; [|split]].
  - intros Ha. unfold handle_blog_comment_reply. rewrite Hp, Ha. reflexivity.
  - intros Ha. apply comment_author_none in Ha.
    unfold insert_blog_comment.
    destruct (existsb _ (blog_comments db)); [now left|]. right.
    unfold blog_comment_references. rewrite Hp, Ha, andb_false_r.
    reflexivity.
  - intros db' H. unfold insert_blog_comment in H.
    destruct (existsb _ (blog_comments db)); [discriminate|].
    destruct (blog_comment_references fk NEW _) eqn:Hfk; cbn [negb] in H;
      [|discriminate].
    unfold blog_comment_references in Hfk. rewrite Hp in Hfk.
    apply andb_true_iff in Hfk. destruct Hfk as [_ Hparent].
    destruct (comment_author
                (set_blog_comments (blog_comments db ++ [NEW]) db) parent)
      as [author|] eqn:Ha.
    2:{ apply comment_author_none in Ha. congruence. }
    unfold handle_blog_comment_notification in H. rewrite Hp in H.
    cbn [bind] in H. injection H as <-.
    unfold handle_blog_comment_reply. rewrite Hp, Ha.
    exists author. eexists. cbn. repeat split.
  - intros author Ha Hr. unfold handle_blog_comment_reply.
    rewrite Hp, Ha, Hr. eexists. cbn. repeat split.
Qed.

Lemma reply_resolution_misses_witness :
  handle_blog_comment_reply Sample.orphan_reply Sample.db1 = Sample.db1
  /\ exists n,
       customer_notifications
         (handle_blog_comment_reply Sample.reply Sample.db1_nameless)
       = [n]
       /\ CustomerNotification.message n
          = "Restaurant replied: " ++ dquote ++ repeat_char "x" 97 ++ "..."
              ++ dquote.
Proof.
  split.
  - apply (reply_resolution_misses references_auth_users Sample.db1
             Sample.orphan_reply 99%N eq_refl).
    reflexivity.
  - destruct (proj2 (proj2 (proj2 (reply_resolution_misses references_auth_users
                                     Sample.db1_nameless
                                     Sample.reply Sample.root_comment eq_refl)))
                Sample.alice eq_refl eq_refl) as [n [H1 [_ [_ H4]]]].
    exists n. split; [exact H1|]. rewrite H4. reflexivity.
Defined.

(** C6, as the claim has it, fails on a reply to a comment that is not
    in the table: the trigger alone would return without a row and
    without an error, but the insert of the reply does not succeed,
    whichever table the author's foreign key refers to. *)
Lemma orphan_reply_is_refused :
  let orphan :=
    BlogComment.mk Sample.reply_comment Sample.post Sample.alice "Thanks"
      (Some 99%N) false in
  let db := set_blog_comments (blog_comments Sample.db1 ++ [orphan]) Sample.db1 in
  comment_author db 99%N = None
  /\ handle_blog_comment_reply orphan db = db
  /\ insert_blog_comment references_auth_users orphan Sample.db1
     = Raise foreign_key_violation
  /\ insert_blog_comment references_profiles orphan Sample.db1
     = Raise foreign_key_violation.
Proof.
  repeat split.
Qed.

(* ------------------------------------------------------------------ *)
(** ** The two comment triggers fire on complementary rows *)

(** C10.  A reply leaves the owner notifications to the owner trigger
    untouched, a root comment leaves the customer notifications to the
    reply trigger untouched: of the two generators at most one writes
    for a given comment. *)
Theorem comment_triggers_complementary (db : database) (NEW : BlogComment.row) :
  (BlogComment.parent_comment_id NEW <> None ->
   handle_blog_comment_notification NEW db = Ok db)
  /\ (BlogComment.parent_comment_id NEW = None ->
      handle_blog_comment_reply NEW db = db)
  /\ (handle_blog_comment_notification NEW db = Ok db
      \/ handle_blog_comment_reply NEW db = db).
Proof.
  unfold handle_blog_comment_notification, handle_blog_comment_reply.
  destruct (BlogComment.parent_comment_id NEW) as [p|].
  - split; [reflexivity|]. split; [discriminate|]. left; reflexivity.
  - split; [intros H; now elim H|]. split; [reflexivity|]. right; reflexivity.
Qed.

Lemma comment_triggers_complementary_witness :
  handle_blog_comment_notification Sample.reply Sample.db1 = Ok Sample.db1
  /\ handle_blog_comment_reply Sample.root Sample.db0 = Sample.db0.
Proof.
  split.
  - apply (proj1 (comment_triggers_complementary Sample.db1 Sample.reply)).
    discriminate.
  - apply (proj1 (proj2 (comment_triggers_complementary Sample.db0 Sample.root))).
    reflexivity.
Defined.

(* ------------------------------------------------------------------ *)
(** ** The rating prompt *)

(** C9.  An order update whose new row has no customer or no restaurant
    inserts nothing, whatever the statuses. *)
Theorem rating_prompt_needs_customer_and_restaurant (db : database)
  (OLD NEW : Order.row) :
  Order.customer_id NEW = None \/ Order.restaurant_id NEW = None ->
  handle_order_status_rating_prompt (UPDATE OLD NEW) db = db.
Proof.
  intros [H|H]; cbn [handle_order_status_rating_prompt]; rewrite H.
  - reflexivity.
  - destruct (Order.customer_id NEW); reflexivity.
Qed.

Lemma rating_prompt_needs_customer_and_restaurant_witness :
  handle_order_status_rating_prompt
    (UPDATE Sample.paid_order Sample.anonymous_completed_order) Sample.db0
  = Sample.db0.
Proof.
  apply (rating_prompt_needs_customer_and_restaurant Sample.db0
           Sample.paid_order Sample.anonymous_completed_order).
  left. reflexivity.
Defined.

Lemma existing_rating_id_none (db : database) (r c o : uuid) :
  existing_rating_id db r c o = None <->
  rows_of_triple r c (Some o) (restaurant_ratings db) = [].
Proof.
  unfold existing_rating_id, rows_of_triple.
  assert (E : forall l,
             filter (fun x =>
                       uuid_eqb (RestaurantRating.restaurant_id x) r
                       && uuid_eqb (RestaurantRating.customer_id x) c
                       && sql_eq (RestaurantRating.order_id x) (Some o)) l
             = filter (fun x =>
                       uuid_eqb (RestaurantRating.restaurant_id x) r
                       && uuid_eqb (RestaurantRating.customer_id x) c
                       && match RestaurantRating.order_id x, Some o with
                          | Some a, Some b => uuid_eqb a b
                          | None, None => true
                          | _, _ => false
                          end) l).
  { intros l. apply filter_ext. intros x. unfold sql_eq.
    destruct (RestaurantRating.order_id x); reflexivity. }
  rewrite E.
  destruct (filter _ (restaurant_ratings db)); simpl; split; congruence.
Qed.

(** C2, as amended.  On an update of an order that has a customer and a
    restaurant, exactly one rating prompt (fixed title and message,
    unread, linked to the order, addressed to the customer) is inserted
    when the new status is completed or served, the old status is
    distinct from it and the (restaurant, customer, order) triple has no
    rating row; writing the same status again, or a status other than
    those two, inserts nothing. *)
Theorem rating_prompt_on_completion (db : database) (OLD NEW : Order.row)
  (c r : uuid) :
  Order.customer_id NEW = Some c ->
  Order.restaurant_id NEW = Some r ->
  (In (Order.status NEW) [Some "completed"; Some "served"] ->
   Order.status OLD <> Order.status NEW ->
   rows_of_triple r c (Some (Order.id NEW)) (restaurant_ratings db) = [] ->
   handle_order_status_rating_prompt (UPDATE OLD NEW) db
   = set_customer_notifications
       (customer_notifications db ++
          [CustomerNotification.mk c (Some (Order.id NEW))
             "Your order is completed"
             "Your order is completed and it will be served in a short while. Please give us rating for our service."
             "unread" None None None])
       db)
  /\ (Order.status OLD = Order.status NEW ->
      handle_order_status_rating_prompt (UPDATE OLD NEW) db = db)
  /\ (~ In (Order.status NEW) [Some "completed"; Some "served"] ->
      handle_order_status_rating_prompt (UPDATE OLD NEW) db = db)
  /\ (rows_of_triple r c (Some (Order.id NEW)) (restaurant_ratings db) <> [] ->
      handle_order_status_rating_prompt (UPDATE OLD NEW) db = db).
Proof.
  intros Hc Hr. cbn [handle_order_status_rating_prompt]. rewrite Hc, Hr.
  assert (Hin : sql_in (Order.status NEW) ["completed"; "served"] = true
                <-> In (Order.status NEW) [Some "completed"; Some "served"]).
  { destruct (Order.status NEW) as [s|]; simpl.
    - rewrite orb_false_r, orb_true_iff, !String.eqb_eq.
      split; intros [H|H]; subst; auto.
      + injection H as <-; auto.
      + destruct H as [H|[]]. injection H as <-; auto.
    - split; [discriminate|]. intros [H|[H|[]]]; discriminate. }
  assert (Hd : is_distinct_from (Order.status OLD) (Order.status NEW) = true
               <-> Order.status OLD <> Order.status NEW).
  { destruct (Order.status OLD) as [a|], (Order.status NEW) as [b|]; simpl.
    - rewrite negb_true_iff. destruct (String.eqb_spec a b).
      + subst. split; [discriminate|]. intros H; now elim H.
      + split; [congruence|reflexivity].
    - split; [discriminate|reflexivity].
    - split; [discriminate|reflexivity].
    - split; [discriminate|]. intros H; now elim H. }
  repeat split.
  - intros H1 H2 H3. apply Hin in H1. apply Hd in H2.
    apply existing_rating_id_none in H3. rewrite H1, H2, H3. reflexivity.
  - intros H. destruct (is_distinct_from _ _) eqn:E.
    + elim (proj1 Hd eq_refl). exact H.
    + rewrite andb_false_r. reflexivity.
  - intros H. destruct (sql_in _ _) eqn:E.
    + elim H. apply Hin. reflexivity.
    + reflexivity.
  - intros H. destruct (existing_rating_id db r c (Order.id NEW)) eqn:E.
    + destruct (_ && _); reflexivity.
    + apply existing_rating_id_none in E. contradiction.
Qed.

Lemma rating_prompt_on_completion_witness :
  customer_notifications
    (handle_order_status_rating_prompt
       (UPDATE Sample.paid_order Sample.completed_order) Sample.db0)
  = [rating_prompt Sample.alice Sample.order1]
  /\ handle_order_status_rating_prompt
       (UPDATE Sample.completed_order Sample.completed_order) Sample.db0
     = Sample.db0.
Proof.
  split.
  - destruct (rating_prompt_on_completion Sample.db0 Sample.paid_order
                Sample.completed_order Sample.alice Sample.bistro
                eq_refl eq_refl) as [H _].
    rewrite H.
    + reflexivity.
    + left. reflexivity.
    + discriminate.
    + reflexivity.
  - destruct (rating_prompt_on_completion Sample.db0 Sample.completed_order
                Sample.completed_order Sample.alice Sample.bistro
                eq_refl eq_refl) as [_ [H _]].
    apply H. reflexivity.
Defined.

(** C2, as the claim has it, fails on an order without a customer: the
    status becomes completed, the old status differs, no rating row
    exists at all, and no notification is inserted. *)
Lemma rating_prompt_skips_order_without_customer :
  In (Order.status Sample.anonymous_completed_order)
    [Some "completed"; Some "served"]
  /\ Order.status Sample.paid_order
     <> Order.status Sample.anonymous_completed_order
  /\ restaurant_ratings Sample.db0 = []
  /\ customer_notifications
       (handle_order_status_rating_prompt
          (UPDATE Sample.paid_order Sample.anonymous_completed_order)
          Sample.db0)
     = customer_notifications Sample.db0.
Proof.
  split; [left; reflexivity|]. split; [discriminate|]. split; reflexivity.
Qed.

(* ------------------------------------------------------------------ *)
(** ** The rating aggregator *)

Ltac inv_bind H :=
  match type of H with
  | bind ?m _ = Ok _ =>
      let E := fresh "E" in
      destruct m eqn:E; cbn [bind] in H; [|discriminate H]
  end.

Lemma rating_of_restaurant_update_other (X rid : uuid) (v : decimal)
  (db : database) :
  X <> rid ->
  rating_of_restaurant X
    (set_restaurants (update_restaurant_rating rid v (restaurants db)) db)
  = rating_of_restaurant X db.
Proof.
  intros Hne. unfold rating_of_restaurant. cbn [restaurants set_restaurants].
  induction (restaurants db) as [|r rs IH]; [reflexivity|].
  cbn [update_restaurant_rating map find].
  fold (update_restaurant_rating rid v rs).
  destruct (uuid_eqb (Restaurant.id r) rid) eqn:Er.
  - cbn [Restaurant.id]. apply N.eqb_eq in Er.
    destruct (uuid_eqb (Restaurant.id r) X) eqn:Ex.
    + apply N.eqb_eq in Ex. congruence.
    + exact IH.
  - destruct (uuid_eqb (Restaurant.id r) X); [reflexivity|exact IH].
Qed.

(** The aggregator never touches the ratings, writes no restaurant
    other than the one it is called for, and writes nothing at all for
    a restaurant without rating rows. *)
Lemma recalculate_frame (rid : uuid) (db db' : database) :
  recalculate_restaurant_rating rid db = Ok db' ->
  restaurant_ratings db' = restaurant_ratings db
  /\ forall X,
       (X <> rid \/ ratings_of X (restaurant_ratings db) = []) ->
       rating_of_restaurant X db' = rating_of_restaurant X db.
Proof.
  unfold recalculate_restaurant_rating. intros H.
  destruct (avg_rating (ratings_of rid (restaurant_ratings db)))
    as [[num den]|] eqn:Eavg.
  - inv_bind H. inv_bind H. injection H as <-. split; [reflexivity|].
    intros X [Hne|Hempty].
    + apply rating_of_restaurant_update_other. exact Hne.
    + destruct (N.eq_dec X rid) as [->|Hne].
      * rewrite Hempty in Eavg. discriminate.
      * apply rating_of_restaurant_update_other. exact Hne.
  - injection H as <-. split; [reflexivity|]. reflexivity.
Qed.

Lemma handle_restaurant_rating_change_frame
  (ev : trigger_event RestaurantRating.row) (db db' : database) :
  handle_restaurant_rating_change ev db = Ok db' ->
  restaurant_ratings db' = restaurant_ratings db
  /\ forall X,
       ratings_of X (restaurant_ratings db) = [] ->
       rating_of_restaurant X db' = rating_of_restaurant X db.
Proof.
  destruct ev as [NEW|OLD NEW|OLD]; cbn [handle_restaurant_rating_change];
    intros H.
  - apply recalculate_frame in H. destruct H as [H1 H2].
    split; [exact H1|]. intros X HX. apply H2. right. exact HX.
  - inv_bind H. apply recalculate_frame in H. destruct H as [H1 H2].
    destruct (negb _).
    + apply recalculate_frame in E. destruct E as [E1 E2].
      split; [congruence|]. intros X HX.
      rewrite H2 by (right; rewrite E1; exact HX).
      apply E2. right. exact HX.
    + injection E as ->. split; [exact H1|].
      intros X HX. apply H2. right. exact HX.
  - apply recalculate_frame in H. destruct H as [H1 H2].
    split; [exact H1|]. intros X HX. apply H2. right. exact HX.
Qed.

Lemma fire_rating_triggers_frame
  (evs : list (trigger_event RestaurantRating.row)) (db db' : database) :
  fire_rating_triggers evs db = Ok db' ->
  restaurant_ratings db' = restaurant_ratings db
  /\ forall X,
       ratings_of X (restaurant_ratings db) = [] ->
       rating_of_restaurant X db' = rating_of_restaurant X db.
Proof.
  revert db. induction evs as [|ev evs IH]; intros db H;
    cbn [fire_rating_triggers] in H.
  - injection H as <-. split; reflexivity.
  - inv_bind H. apply handle_restaurant_rating_change_frame in E.
    apply IH in H. destruct E as [E1 E2], H as [H1 H2].
    split; [congruence|]. intros X HX.
    rewrite H2 by (rewrite E1; exact HX). apply E2. exact HX.
Qed.

(** A statement changes the displayed rating of no restaurant that it
    leaves without rating rows. *)
Lemma exec_frame (st : statement) (db db' : database) (X : uuid) :
  exec st db = Ok db' ->
  ratings_of X (restaurant_ratings db') = [] ->
  rating_of_restaurant X db' = rating_of_restaurant X db.
Proof.
  intros H HX.
  assert (G : forall l d,
             restaurant_ratings d = restaurant_ratings (set_restaurant_ratings l db)
             /\ (forall Y, ratings_of Y
                             (restaurant_ratings (set_restaurant_ratings l db)) = [] ->
                           rating_of_restaurant Y d
                           = rating_of_restaurant Y (set_restaurant_ratings l db)) ->
             d = db' -> rating_of_restaurant X db' = rating_of_restaurant X db).
  { intros l d [G1 G2] ->. rewrite G2 by (rewrite <- G1; exact HX). reflexivity. }
  destruct st as [rid r c o v|rid r c o v|rid|o]; cbn [exec] in H.
  - inv_bind H. apply handle_restaurant_rating_change_frame in H.
    eapply G; [exact H|reflexivity].
  - destruct (find_rating rid (restaurant_ratings db)) as [OLD|].
    + inv_bind H. apply handle_restaurant_rating_change_frame in H.
      eapply G; [exact H|reflexivity].
    + injection H as <-. reflexivity.
  - destruct (find_rating rid (restaurant_ratings db)) as [OLD|].
    + apply handle_restaurant_rating_change_frame in H.
      eapply G; [exact H|reflexivity].
    + injection H as <-. reflexivity.
  - apply fire_rating_triggers_frame in H.
    eapply G; [exact H|reflexivity].
Qed.

(** C5.  When a statement on the ratings (a delete, an update that
    moves a rating away, or any other) leaves a restaurant without
    rating rows, recomputing that restaurant writes nothing and its
    displayed rating is what it was before the statement. *)
Theorem empty_restaurant_keeps_rating (st : statement) (db : database)
  (X : uuid) :
  ratings_of X (restaurant_ratings (step st db)) = [] ->
  recalculate_restaurant_rating X (step st db) = Ok (step st db)
  /\ rating_of_restaurant X (step st db) = rating_of_restaurant X db.
Proof.
  intros HX. split.
  - unfold recalculate_restaurant_rating. rewrite HX. reflexivity.
  - unfold step in *. destruct (exec st db) as [db'|e] eqn:E.
    + eapply exec_frame; [exact E|exact HX].
    + reflexivity.
Qed.

Lemma empty_restaurant_keeps_rating_witness :
  rating_of_restaurant Sample.bistro
    (step (DeleteRating 1%N) (run [Sample.rate 1 30] Sample.db0))
  = Some (mkDecimal 30 1).
Proof.
  rewrite (proj2 (empty_restaurant_keeps_rating (DeleteRating 1%N)
                    (run [Sample.rate 1 30] Sample.db0) Sample.bistro eq_refl)).
  reflexivity.
Defined.

(** C1 at the failing input.  After ten ratings of 3.0 and one of 3.5
    the mean is 3.0454...; to one decimal that is 3.0, and the trigger
    stores 3.1: the cast of the average to [numeric(3,2)] rounds it to
    3.05 before [round] sees it. *)
Theorem rating_rounded_twice :
  let db := run Sample.eleven_ratings Sample.db0 in
  let rows := ratings_of Sample.bistro (restaurant_ratings db) in
  List.length rows = 11%nat
  /\ sum_ratings rows = 335
  /\ spec_mean_one_decimal rows = 30
  /\ rating_of_restaurant Sample.bistro db = Some (mkDecimal 31 1).
Proof.
  vm_compute. repeat split.
Qed.

(* ------------------------------------------------------------------ *)
(** ** Integrity of the ratings table is an invariant *)

Lemma same_key_sym (a b : RestaurantRating.row) : same_key a b = same_key b a.
Proof.
  unfold same_key, uuid_eqb. f_equal; [f_equal; apply N.eqb_sym|].
  unfold sql_eq, uuid_eqb.
  destruct (RestaurantRating.order_id a), (RestaurantRating.order_id b);
    try reflexivity.
  apply N.eqb_sym.
Qed.

Lemma round_half_away_exact (a b : Z) :
  0 < b -> round_half_away (a * b) b = a.
Proof.
  intros Hb. unfold round_half_away. destruct (Z.ltb_spec (a * b) 0).
  - assert (E : (2 * - (a * b) + b) / (2 * b) = - a).
    { symmetry. apply Z.div_unique with (r := b); nia. }
    rewrite E. lia.
  - symmetry. apply Z.div_unique with (r := b); nia.
Qed.

Lemma cast_numeric_2_1_tenths (a : Z) (v : Z) :
  cast_numeric 2 1 a 10 = Ok v -> v = a.
Proof.
  unfold cast_numeric. change (10 ^ Z.of_nat 1) with 10.
  rewrite round_half_away_exact by lia.
  destruct (Z.abs a <? _); [|discriminate]. congruence.
Qed.

Lemma check_rating_row_ok (rid r c : uuid) (o : option uuid) (v : decimal)
  (others : list RestaurantRating.row) (row : RestaurantRating.row) :
  check_rating_row rid r c o v others = Ok row ->
  RestaurantRating.id row = rid
  /\ RestaurantRating.restaurant_id row = r
  /\ RestaurantRating.customer_id row = c
  /\ RestaurantRating.order_id row = o
  /\ 10 <= RestaurantRating.rating row <= 50
  /\ (forall x, In x others -> RestaurantRating.id x <> rid)
  /\ (forall x, In x others -> same_key row x = false).
Proof.
  unfold check_rating_row. intros H. inv_bind H.
  destruct (rating_check a) eqn:Ec; cbn [negb] in H; [|discriminate].
  destruct (existsb (fun x => uuid_eqb (RestaurantRating.id x) rid) others)
    eqn:Epk; [discriminate|].
  destruct (existsb _ others) eqn:Euq in H; [discriminate|].
  injection H as <-. cbn.
  unfold rating_check in Ec. apply andb_true_iff in Ec.
  destruct Ec as [Ec1 Ec2]. apply Z.leb_le in Ec1, Ec2.
  repeat split; try assumption.
  - intros x Hx Hid.
    assert (Hex : existsb (fun x => uuid_eqb (RestaurantRating.id x) rid) others
                  = true).
    { apply existsb_exists. exists x. split; [exact Hx|]. now apply N.eqb_eq. }
    congruence.
  - intros x Hx. destruct (same_key _ x) eqn:Ek; [|reflexivity].
    assert (Hex : existsb (same_key (RestaurantRating.mk rid r c o a)) others
                  = true).
    { apply existsb_exists. exists x. split; assumption. }
    congruence.
Qed.

Lemma in_replace_rating (rid : uuid) (new x : RestaurantRating.row)
  (l : list RestaurantRating.row) :
  In x (replace_rating rid new l) ->
  x = new \/ In x (rows_except rid l).
Proof.
  unfold replace_rating, rows_except. intros H.
  apply in_map_iff in H. destruct H as [y [Hy Hin]].
  destruct (uuid_eqb (RestaurantRating.id y) rid) eqn:E.
  - left. congruence.
  - right. subst x. apply filter_In. split; [exact Hin|]. now rewrite E.
Qed.

Lemma map_id_replace_rating (rid : uuid) (new : RestaurantRating.row)
  (l : list RestaurantRating.row) :
  RestaurantRating.id new = rid ->
  map RestaurantRating.id (replace_rating rid new l) = map RestaurantRating.id l.
Proof.
  intros Hid. unfold replace_rating. rewrite map_map. apply map_ext_in.
  intros y _. destruct (uuid_eqb (RestaurantRating.id y) rid) eqn:E;
    [|reflexivity].
  apply N.eqb_eq in E. congruence.
Qed.

Lemma rows_except_keeps_primary_key (rid : uuid)
  (rows : list RestaurantRating.row) :
  NoDup (map RestaurantRating.id rows) ->
  NoDup (map RestaurantRating.id (rows_except rid rows)).
Proof.
  unfold rows_except. intros Hpk.
  induction rows as [|x rows IH]; [constructor|].
  cbn [map] in Hpk. apply NoDup_cons_iff in Hpk. destruct Hpk as [Hx Hpk].
  cbn [filter]. destruct (negb (uuid_eqb (RestaurantRating.id x) rid)).
  - cbn [map]. apply NoDup_cons; [|exact (IH Hpk)].
    intros Hin. apply Hx. apply in_map_iff in Hin.
    destruct Hin as [y [Hy Hyin]]. apply filter_In in Hyin.
    apply in_map_iff. exists y. tauto.
  - exact (IH Hpk).
Qed.

Lemma NoDup_snoc {A : Type} (l : list A) (x : A) :
  NoDup l -> ~ In x l -> NoDup (l ++ [x]).
Proof.
  induction l as [|y l IH]; cbn [app]; intros Hnd Hx.
  - constructor; [intros []|constructor].
  - inversion Hnd as [|z zs Hy Hnd']; subst. constructor.
    + intros Hin. apply in_app_iff in Hin. destruct Hin as [Hin|[<-|[]]].
      * now apply Hy.
      * apply Hx. now left.
    + apply IH; [exact Hnd'|]. intros Hin. apply Hx. now right.
Qed.

Lemma clear_order_id (o : uuid) (x : RestaurantRating.row) :
  RestaurantRating.id (clear_order o x) = RestaurantRating.id x.
Proof. unfold clear_order. destruct (sql_eq _ _); reflexivity. Qed.

Lemma clear_order_rating (o : uuid) (x : RestaurantRating.row) :
  RestaurantRating.rating (clear_order o x) = RestaurantRating.rating x.
Proof. unfold clear_order. destruct (sql_eq _ _); reflexivity. Qed.

Lemma same_key_clear_order (o : uuid) (a b : RestaurantRating.row) :
  same_key (clear_order o a) (clear_order o b) = true -> same_key a b = true.
Proof.
  unfold clear_order.
  destruct (sql_eq (RestaurantRating.order_id a) (Some o));
    destruct (sql_eq (RestaurantRating.order_id b) (Some o));
    unfold same_key; cbn;
    rewrite ?andb_false_r; try discriminate; try (intros H; exact H).
  destruct (RestaurantRating.order_id a); cbn; rewrite ?andb_false_r;
    discriminate.
Qed.

Lemma consistent_insert (l : list RestaurantRating.row) (rid r c : uuid)
  (o : option uuid) (v : decimal) (row : RestaurantRating.row) :
  ratings_consistent l ->
  check_rating_row rid r c o v l = Ok row ->
  ratings_consistent (l ++ [row]).
Proof.
  intros [Hrange [Hpk Huq]] Hrow.
  apply check_rating_row_ok in Hrow.
  destruct Hrow as [Hid [_ [_ [_ [Hr [Hfresh Hkey]]]]]].
  split; [|split].
  - apply Forall_app. split; [exact Hrange|]. constructor; [exact Hr|constructor].
  - rewrite map_app. cbn [map]. apply NoDup_snoc; [exact Hpk|].
    intros Hin. apply in_map_iff in Hin.
    destruct Hin as [x [Hx Hxin]]. apply (Hfresh x Hxin). congruence.
  - intros a b Ha Hb Hk. apply in_app_iff in Ha, Hb. cbn [In] in Ha, Hb.
    destruct Ha as [Ha|[<-|[]]], Hb as [Hb|[<-|[]]].
    + now apply Huq.
    + rewrite same_key_sym, (Hkey a Ha) in Hk. discriminate.
    + rewrite (Hkey b Hb) in Hk. discriminate.
    + reflexivity.
Qed.

Lemma consistent_rows_except (l : list RestaurantRating.row) (rid : uuid) :
  ratings_consistent l -> ratings_consistent (rows_except rid l).
Proof.
  intros [Hrange [Hpk Huq]]. unfold rows_except. split; [|split].
  - apply Forall_forall. intros x Hx. apply filter_In in Hx.
    rewrite Forall_forall in Hrange. now apply Hrange.
  - now apply rows_except_keeps_primary_key.
  - intros a b Ha Hb. apply filter_In in Ha, Hb. apply Huq; tauto.
Qed.

Lemma consistent_replace (l : list RestaurantRating.row) (rid r c : uuid)
  (o : option uuid) (v : decimal) (row : RestaurantRating.row) :
  ratings_consistent l ->
  check_rating_row rid r c o v (rows_except rid l) = Ok row ->
  ratings_consistent (replace_rating rid row l).
Proof.
  intros Hl Hrow. pose proof (consistent_rows_except l rid Hl) as Hex.
  destruct Hl as [Hrange [Hpk Huq]]. destruct Hex as [Hrange' [_ Huq']].
  apply check_rating_row_ok in Hrow.
  destruct Hrow as [Hid [_ [_ [_ [Hr [_ Hkey]]]]]].
  split; [|split].
  - apply Forall_forall. intros x Hx. apply in_replace_rating in Hx.
    destruct Hx as [->|Hx]; [exact Hr|].
    rewrite Forall_forall in Hrange'. now apply Hrange'.
  - rewrite map_id_replace_rating by exact Hid. exact Hpk.
  - intros a b Ha Hb Hk.
    apply in_replace_rating in Ha, Hb.
    destruct Ha as [->|Ha], Hb as [->|Hb].
    + reflexivity.
    + rewrite (Hkey b Hb) in Hk. discriminate.
    + rewrite same_key_sym, (Hkey a Ha) in Hk. discriminate.
    + now apply Huq'.
Qed.

Lemma consistent_clear_order (l : list RestaurantRating.row) (o : uuid) :
  ratings_consistent l -> ratings_consistent (map (clear_order o) l).
Proof.
  intros [Hrange [Hpk Huq]]. split; [|split].
  - apply Forall_forall. intros x Hx. apply in_map_iff in Hx.
    destruct Hx as [y [<- Hy]]. rewrite clear_order_rating.
    rewrite Forall_forall in Hrange. now apply Hrange.
  - rewrite map_map.
    rewrite (map_ext _ RestaurantRating.id (clear_order_id o)). exact Hpk.
  - intros a b Ha Hb Hk. apply in_map_iff in Ha, Hb.
    destruct Ha as [a' [<- Ha]], Hb as [b' [<- Hb]].
    rewrite !clear_order_id. apply Huq; try assumption.
    eapply same_key_clear_order. exact Hk.
Qed.

Lemma step_consistent (st : statement) (db : database) :
  ratings_consistent (restaurant_ratings db) ->
  ratings_consistent (restaurant_ratings (step st db)).
Proof.
  intros Hl. unfold step. destruct (exec st db) as [db'|e] eqn:H; [|exact Hl].
  destruct st as [rid r c o v|rid r c o v|rid|o]; cbn [exec] in H.
  - inv_bind H. apply handle_restaurant_rating_change_frame in H.
    destruct H as [H _]. rewrite H. cbn.
    eapply consistent_insert; eassumption.
  - destruct (find_rating rid (restaurant_ratings db)) as [OLD|].
    + inv_bind H. apply handle_restaurant_rating_change_frame in H.
      destruct H as [H _]. rewrite H. cbn.
      eapply consistent_replace; eassumption.
    + injection H as <-. exact Hl.
  - destruct (find_rating rid (restaurant_ratings db)) as [OLD|].
    + apply handle_restaurant_rating_change_frame in H.
      destruct H as [H _]. rewrite H. cbn.
      now apply consistent_rows_except.
    + injection H as <-. exact Hl.
  - apply fire_rating_triggers_frame in H.
    destruct H as [H _]. rewrite H. cbn.
    now apply consistent_clear_order.
Qed.

Lemma run_consistent (sts : list statement) (db : database) :
  ratings_consistent (restaurant_ratings db) ->
  ratings_consistent (restaurant_ratings (run sts db)).
Proof.
  revert db. induction sts as [|st sts IH]; intros db H; [exact H|].
  cbn [run fold_left]. apply IH. now apply step_consistent.
Qed.

Lemma at_most_one_row (p : RestaurantRating.row -> bool)
  (rows : list RestaurantRating.row) :
  (forall a b, In a rows -> In b rows -> p a = true -> p b = true ->
               RestaurantRating.id a = RestaurantRating.id b) ->
  NoDup (map RestaurantRating.id rows) ->
  (List.length (filter p rows) <= 1)%nat.
Proof.
  induction rows as [|x rows IH]; cbn [map filter]; intros Hsame Hpk;
    [cbn; lia|].
  apply NoDup_cons_iff in Hpk. destruct Hpk as [Hx Hpk].
  destruct (p x) eqn:Ex.
  - assert (Hnil : filter p rows = []).
    { destruct (filter p rows) as [|z zs] eqn:Ef; [reflexivity|].
      assert (Hz : In z (filter p rows)) by (rewrite Ef; now left).
      apply filter_In in Hz. destruct Hz as [Hz Hpz].
      exfalso. apply Hx.
      rewrite (Hsame x z (or_introl eq_refl) (or_intror Hz) Ex Hpz).
      now apply in_map. }
    rewrite Hnil. cbn. lia.
  - apply IH; [|exact Hpk]. intros a b Ha Hb. apply Hsame; now right.
Qed.

(** C8, as amended.  Whatever statements have run on an empty ratings
    table, every stored rating is a number of tenths between 1.0 and
    5.0, and a (restaurant, customer, order) triple whose order is
    present has at most one row. *)
Theorem ratings_in_range_and_unique_per_order (sts : list statement)
  (db : database) :
  restaurant_ratings db = [] ->
  (forall x, In x (restaurant_ratings (run sts db)) ->
             10 <= RestaurantRating.rating x <= 50)
  /\ (forall r c o,
        (List.length
           (rows_of_triple r c (Some o) (restaurant_ratings (run sts db)))
         <= 1)%nat).
Proof.
  intros Hempty.
  assert (H0 : ratings_consistent (restaurant_ratings db)).
  { rewrite Hempty. split; [constructor|]. split; [constructor|].
    intros a b []. }
  apply (run_consistent sts) in H0. destruct H0 as [Hrange [Hpk Huq]].
  split.
  - rewrite Forall_forall in Hrange. exact Hrange.
  - intros r c o. unfold rows_of_triple.
    apply at_most_one_row; [|exact Hpk].
    intros a b Ha Hb Hpa Hpb. apply Huq; try assumption.
    unfold same_key, sql_eq. unfold uuid_eqb in *.
    destruct (RestaurantRating.order_id a) as [oa|];
      [|rewrite andb_false_r in Hpa; discriminate].
    destruct (RestaurantRating.order_id b) as [ob|];
      [|rewrite andb_false_r in Hpb; discriminate].
    apply andb_true_iff in Hpa, Hpb.
    destruct Hpa as [Hpa Hoa], Hpb as [Hpb Hob].
    apply andb_true_iff in Hpa, Hpb.
    destruct Hpa as [Hra Hca], Hpb as [Hrb Hcb].
    apply N.eqb_eq in Hra, Hca, Hrb, Hcb, Hoa, Hob. subst.
    rewrite Hrb, Hcb, !N.eqb_refl. reflexivity.
Qed.

Lemma ratings_in_range_and_unique_per_order_witness :
  (List.length
     (rows_of_triple Sample.bistro 101%N (Some 201%N)
        (restaurant_ratings (run Sample.eleven_ratings Sample.db0)))
   <= 1)%nat.
Proof.
  apply (proj2 (ratings_in_range_and_unique_per_order Sample.eleven_ratings
                  Sample.db0 eq_refl)).
Defined.

(** C8, as the claim has it, fails for a triple without an order: the
    unique constraint lets the same customer rate the same restaurant
    twice when neither row refers to an order. *)
Lemma two_ratings_without_order :
  let db :=
    run [InsertRating 1%N Sample.bistro Sample.alice None (mkDecimal 40 1);
         InsertRating 2%N Sample.bistro Sample.alice None (mkDecimal 50 1)]
      Sample.db0 in
  List.length
    (rows_of_triple Sample.bistro Sample.alice None (restaurant_ratings db))
  = 2%nat.
Proof.
  vm_compute. reflexivity.
Qed.

(* ------------------------------------------------------------------ *)
(** ** The owner notification *)

Lemma select_into_map_filter {A B : Type} (f : A -> B) (p : A -> bool)
  (l : list A) :
  select_into (map (fun x => Some (f x)) (filter p l)) = option_map f (find p l).
Proof.
  induction l as [|x l IH]; [reflexivity|].
  cbn [filter find]. destruct (p x); [reflexivity|exact IH].
Qed.

Lemma restaurant_of_post_find (db : database) (post : uuid) :
  restaurant_of_post db post = option_map BlogPost.restaurant_id (find_post db post).
Proof. apply select_into_map_filter. Qed.

Lemma title_of_post_find (db : database) (post : uuid) :
  title_of_post db post = option_map BlogPost.title (find_post db post).
Proof. apply select_into_map_filter. Qed.

Lemma find_filter {A : Type} (p : A -> bool) (l : list A) :
  find p l = match filter p l with [] => None | x :: _ => Some x end.
Proof.
  induction l as [|x l IH]; [reflexivity|].
  cbn [filter find]. destruct (p x); [reflexivity|exact IH].
Qed.

Lemma customer_display_name_find (db : database) (cid : uuid) :
  customer_display_name db cid
  = match find_user db cid with
    | None => None
    | Some u =>
        display_name
          (match find_profile db (AuthUser.id u) with
           | Some p => Profile.full_name p
           | None => None
           end)
          (AuthUser.email u)
    end.
Proof.
  unfold customer_display_name, find_user, find_profile.
  induction (users db) as [|u us IH]; [reflexivity|].
  cbn [filter find]. destruct (uuid_eqb (AuthUser.id u) cid); [|exact IH].
  cbn [flat_map]. rewrite find_filter.
  destruct (filter _ (profiles db)); reflexivity.
Qed.

Lemma no_notification_for_new_comment (db : database) (NEW : BlogComment.row) :
  notifications_reference_comments db ->
  existsb (fun x => uuid_eqb (BlogComment.id x) (BlogComment.id NEW))
    (blog_comments db) = false ->
  existsb (fun m => uuid_eqb (BlogCommentNotification.comment_id m)
                      (BlogComment.id NEW))
    (blog_comment_notifications db) = false.
Proof.
  intros Hfk Hfresh.
  destruct (existsb _ (blog_comment_notifications db)) eqn:E; [|reflexivity].
  apply existsb_exists in E. destruct E as [m [Hm Hid]].
  destruct (Hfk m Hm) as [c [Hc Hcid]].
  assert (Hex : existsb (fun x => uuid_eqb (BlogComment.id x) (BlogComment.id NEW))
                  (blog_comments db) = true).
  { apply existsb_exists. exists c. split; [exact Hc|]. now rewrite Hcid. }
  congruence.
Qed.

Lemma insert_blog_comment_notification_ok (n : BlogCommentNotification.row)
  (db db' : database) :
  insert_blog_comment_notification n db = Ok db' ->
  existsb (fun m => uuid_eqb (BlogCommentNotification.comment_id m)
                      (BlogCommentNotification.comment_id n))
    (blog_comment_notifications db) = false
  /\ blog_comment_notification_references n db = true
  /\ db' = set_blog_comment_notifications
             (blog_comment_notifications db ++ [n]) db.
Proof.
  unfold insert_blog_comment_notification. intros H.
  destruct (negb (sql_in _ _)); [discriminate H|].
  destruct (existsb _ (blog_comment_notifications db)); [discriminate H|].
  destruct (blog_comment_notification_references n db); cbn [negb] in H;
    [|discriminate H].
  injection H as <-. repeat split.
Qed.

Lemma insert_blog_comment_ok (fk : customer_fkey) (c : BlogComment.row)
  (db db' : database) :
  insert_blog_comment fk c db = Ok db' ->
  existsb (fun x => uuid_eqb (BlogComment.id x) (BlogComment.id c))
    (blog_comments db) = false
  /\ blog_comment_references fk c
       (set_blog_comments (blog_comments db ++ [c]) db) = true
  /\ exists a,
       handle_blog_comment_notification c
         (set_blog_comments (blog_comments db ++ [c]) db) = Ok a
       /\ db' = handle_blog_comment_reply c a.
Proof.
  unfold insert_blog_comment. intros H.
  destruct (existsb _ (blog_comments db)); [discriminate H|].
  destruct (blog_comment_references fk c _); cbn [negb] in H; [|discriminate H].
  inv_bind H. injection H as <-. repeat split. exists a. now split.
Qed.

Lemma find_post_exists (db : database) (post : uuid) (bp : BlogPost.row) :
  find_post db post = Some bp ->
  existsb (fun x => uuid_eqb (BlogPost.id x) post) (blog_posts db) = true.
Proof.
  unfold find_post. intros H. apply find_some in H.
  apply existsb_exists. now exists bp.
Qed.

Lemma customer_known_with_comments (fk : customer_fkey) (db : database)
  (l : list BlogComment.row) (cid : uuid) :
  customer_known fk (set_blog_comments l db) cid = customer_known fk db cid.
Proof. destruct fk; reflexivity. Qed.

(** The owner notification a root comment on the post [bp] leads to. *)
Lemma owner_trigger_on_root (db : database) (NEW : BlogComment.row)
  (bp : BlogPost.row) :
  BlogComment.parent_comment_id NEW = None ->
  find_post db (BlogComment.blog_post_id NEW) = Some bp ->
  handle_blog_comment_notification NEW db
  = insert_blog_comment_notification
      (BlogCommentNotification.mk (BlogPost.restaurant_id bp)
         (BlogComment.customer_id NEW) (BlogComment.blog_post_id NEW)
         (BlogComment.id NEW) "New Blog Comment"
         (format_commented
            (coalesce (customer_display_name db (BlogComment.customer_id NEW))
               "A customer")
            (coalesce (title_of_post db (BlogComment.blog_post_id NEW))
               "a blog post")
            (preview (BlogComment.content NEW)))
         "unread" (Some (BlogComment.content NEW)))
      db.
Proof.
  intros Hroot Hpost. unfold handle_blog_comment_notification.
  rewrite Hroot, restaurant_of_post_find, Hpost. reflexivity.
Qed.

(** C4.  Every root comment that is inserted on a published post adds
    exactly one owner notification, for the post's restaurant and with
    the comment's identifier, and no customer notification; after
    that, inserting any owner notification with the same comment
    identifier is refused, by the unique constraint when its status
    passes the CHECK.  Such a comment is inserted exactly when its
    identifier is new and the foreign keys hold: its author is in the
    table the comments refer to and has a profile, and the post's
    restaurant exists. *)
Theorem owner_notification_created (fk : customer_fkey) (db : database)
  (NEW : BlogComment.row) (bp : BlogPost.row) :
  notifications_reference_comments db ->
  BlogComment.parent_comment_id NEW = None ->
  find_post db (BlogComment.blog_post_id NEW) = Some bp ->
  BlogPost.is_published bp = true ->
  (forall db',
     insert_blog_comment fk NEW db = Ok db' ->
     exists n,
       blog_comment_notifications db'
       = (blog_comment_notifications db ++ [n])%list
       /\ customer_notifications db' = customer_notifications db
       /\ BlogCommentNotification.restaurant_id n = BlogPost.restaurant_id bp
       /\ BlogCommentNotification.comment_id n = BlogComment.id NEW
       /\ (forall n2,
             BlogCommentNotification.comment_id n2 = BlogComment.id NEW ->
             exists e, insert_blog_comment_notification n2 db' = Raise e)
       /\ (forall n2,
             BlogCommentNotification.comment_id n2 = BlogComment.id NEW ->
             In (BlogCommentNotification.status n2) ["unread"; "read"] ->
             insert_blog_comment_notification n2 db' = Raise unique_violation))
  /\ ((exists db', insert_blog_comment fk NEW db = Ok db')
      <-> existsb (fun x => uuid_eqb (BlogComment.id x) (BlogComment.id NEW))
            (blog_comments db) = false
          /\ customer_known fk db (BlogComment.customer_id NEW) = true
          /\ existsb (fun p => uuid_eqb (Profile.id p) (BlogComment.customer_id NEW))
               (profiles db) = true
          /\ existsb (fun r => uuid_eqb (Restaurant.id r) (BlogPost.restaurant_id bp))
               (restaurants db) = true).
Proof.
  intros Hfk Hroot Hpost _.
  assert (Hpost1 : find_post (set_blog_comments (blog_comments db ++ [NEW]) db)
                     (BlogComment.blog_post_id NEW) = Some bp) by exact Hpost.
  pose proof (owner_trigger_on_root _ NEW bp Hroot Hpost1) as Htrig.
  split; [|split].
  - intros db' H. apply insert_blog_comment_ok in H.
    destruct H as (Hfresh & _ & a & Ha & ->).
    rewrite Htrig in Ha. apply insert_blog_comment_notification_ok in Ha.
    destruct Ha as (_ & _ & ->).
    unfold handle_blog_comment_reply. rewrite Hroot.
    eexists. cbn. split; [reflexivity|]. split; [reflexivity|].
    split; [reflexivity|]. split; [reflexivity|].
    assert (Hdup : forall n2 rest,
               BlogCommentNotification.comment_id n2 = BlogComment.id NEW ->
               BlogCommentNotification.comment_id rest = BlogComment.id NEW ->
               existsb
                 (fun m => uuid_eqb (BlogCommentNotification.comment_id m)
                             (BlogCommentNotification.comment_id n2))
                 (blog_comment_notifications db ++ [rest])
               = true).
    { intros n2 rest Hn2 Hrest. rewrite existsb_app. apply orb_true_iff. right.
      cbn. rewrite Hn2, Hrest. unfold uuid_eqb. now rewrite N.eqb_refl. }
    split.
    + intros n2 Hn2. unfold insert_blog_comment_notification.
      destruct (negb _); [eexists; reflexivity|].
      cbn [blog_comment_notifications set_blog_comment_notifications].
      rewrite (Hdup n2); [eexists; reflexivity|exact Hn2|reflexivity].
    + intros n2 Hn2 Hst. unfold insert_blog_comment_notification.
      assert (Hok : sql_in (Some (BlogCommentNotification.status n2))
                      ["unread"; "read"] = true).
      { cbn. destruct Hst as [<-|[<-|[]]]; reflexivity. }
      rewrite Hok. cbn [negb].
      cbn [blog_comment_notifications set_blog_comment_notifications].
      rewrite (Hdup n2); [reflexivity|exact Hn2|reflexivity].
  - intros [db' H]. apply insert_blog_comment_ok in H.
    destruct H as (Hfresh & Hrefs & a & Ha & _).
    rewrite Htrig in Ha. apply insert_blog_comment_notification_ok in Ha.
    destruct Ha as (_ & Hn & _).
    unfold blog_comment_references in Hrefs.
    rewrite customer_known_with_comments in Hrefs.
    unfold blog_comment_notification_references in Hn. cbn in Hn.
    apply andb_true_iff in Hrefs. destruct Hrefs as [Hrefs _].
    apply andb_true_iff in Hrefs. destruct Hrefs as [_ Hc].
    apply andb_true_iff in Hn. destruct Hn as [Hn _].
    apply andb_true_iff in Hn. destruct Hn as [Hn _].
    apply andb_true_iff in Hn. destruct Hn as [Hr Hp].
    repeat split; assumption.
  - intros (Hfresh & Hc & Hp & Hr).
    pose proof (no_notification_for_new_comment db NEW Hfk Hfresh) as Hnone.
    unfold insert_blog_comment. rewrite Hfresh.
    unfold blog_comment_references.
    rewrite customer_known_with_comments, Hc, Hroot, andb_true_r.
    change (blog_posts (set_blog_comments (blog_comments db ++ [NEW]) db))
      with (blog_posts db).
    rewrite (find_post_exists db _ bp Hpost). cbn [negb andb].
    rewrite Htrig. unfold insert_blog_comment_notification.
    cbn [BlogCommentNotification.status BlogCommentNotification.comment_id].
    change (sql_in (Some "unread") ["unread"; "read"]) with true. cbn [negb].
    change (blog_comment_notifications
              (set_blog_comments (blog_comments db ++ [NEW]) db))
      with (blog_comment_notifications db).
    rewrite Hnone.
    unfold blog_comment_notification_references.
    cbn [BlogCommentNotification.restaurant_id
           BlogCommentNotification.customer_id
           BlogCommentNotification.blog_post_id
           BlogCommentNotification.comment_id
           restaurants profiles blog_posts blog_comments set_blog_comments].
    rewrite Hr, Hp, (find_post_exists db _ bp Hpost), existsb_app.
    cbn [existsb]. unfold uuid_eqb at 2. rewrite N.eqb_refl.
    rewrite !orb_true_r. cbn [negb andb bind]. eexists. reflexivity.
Qed.

Lemma owner_notification_created_witness :
  exists db' n,
    insert_blog_comment references_profiles Sample.root Sample.db0 = Ok db'
    /\ blog_comment_notifications db' = [n]
    /\ BlogCommentNotification.restaurant_id n = Sample.bistro
    /\ BlogCommentNotification.comment_id n = Sample.root_comment.
Proof.
  assert (Hfk : notifications_reference_comments Sample.db0)
    by (intros n []).
  pose proof (owner_notification_created references_profiles Sample.db0
                Sample.root
                (BlogPost.mk Sample.post Sample.bistro "Hello" true)
                Hfk eq_refl eq_refl eq_refl) as [Hone Hiff].
  destruct (proj2 Hiff) as [db' Hdb'].
  { repeat split. }
  destruct (Hone db' Hdb') as [n [H2 [_ [H4 [H5 _]]]]].
  exists db', n. repeat split; assumption.
Defined.

(** The foreign key is kept by the insert of a comment. *)
Lemma insert_blog_comment_keeps_reference (fk : customer_fkey)
  (c : BlogComment.row) (db db' : database) :
  notifications_reference_comments db ->
  insert_blog_comment fk c db = Ok db' ->
  notifications_reference_comments db'.
Proof.
  intros Hfk H. apply insert_blog_comment_ok in H.
  destruct H as (_ & _ & a & E & ->).
  assert (Ha : notifications_reference_comments a).
  { unfold handle_blog_comment_notification in E.
    destruct (BlogComment.parent_comment_id c).
    - injection E as <-. intros n Hn. destruct (Hfk n Hn) as [x [Hx Hid]].
      exists x. split; [|exact Hid]. cbn. apply in_app_iff. now left.
    - destruct (restaurant_of_post _ _).
      + apply insert_blog_comment_notification_ok in E.
        destruct E as (_ & _ & ->).
        intros n Hn. cbn in Hn. apply in_app_iff in Hn.
        destruct Hn as [Hn|[<-|[]]].
        * destruct (Hfk n Hn) as [x [Hx Hid]].
          exists x. split; [|exact Hid]. cbn. apply in_app_iff. now left.
        * exists c. split; [|reflexivity]. cbn. apply in_app_iff.
          right. now left.
      + injection E as <-. intros n Hn. destruct (Hfk n Hn) as [x [Hx Hid]].
        exists x. split; [|exact Hid]. cbn. apply in_app_iff. now left. }
  unfold handle_blog_comment_reply.
  destruct (BlogComment.parent_comment_id c); [|exact Ha].
  destruct (comment_author a u); exact Ha.
Qed.

(** C7, as amended.  The message of the owner notification a root
    comment produces is: the customer's name, then the words commented
    on your blog post, the post's title in double quotes, a colon, and
    in double quotes the comment, whole when it has at most 100
    characters and otherwise its first 97 characters followed by three
    dots.  The name is the profile's full name when there is one,
    otherwise what precedes the at sign of the account's e-mail
    address, and the words A customer when the account has neither. *)
Theorem owner_notification_message (db db' : database) (NEW : BlogComment.row)
  (n : BlogCommentNotification.row) (u : AuthUser.row) :
  handle_blog_comment_notification NEW db = Ok db' ->
  blog_comment_notifications db'
  = (blog_comment_notifications db ++ [n])%list ->
  find_user db (BlogComment.customer_id NEW) = Some u ->
  exists bp,
    find_post db (BlogComment.blog_post_id NEW) = Some bp
    /\ BlogCommentNotification.message n
       = (match find_profile db (AuthUser.id u) with
          | Some (Profile.mk _ (Some full_name)) => full_name
          | _ =>
              match AuthUser.email u with
              | Some email => split_part_at_1 email
              | None => "A customer"
              end
          end)
           ++ " commented on your blog post " ++ dquote
           ++ BlogPost.title bp ++ dquote ++ ": " ++ dquote
           ++ (if (length (BlogComment.content NEW) <=? 100)%nat
               then BlogComment.content NEW
               else left (BlogComment.content NEW) 97 ++ "...")
           ++ dquote.
Proof.
  unfold handle_blog_comment_notification. intros H Hn Hu.
  destruct (BlogComment.parent_comment_id NEW).
  { injection H as <-. exfalso.
    apply (f_equal (@List.length _)) in Hn. rewrite length_app in Hn.
    cbn in Hn. lia. }
  rewrite restaurant_of_post_find, title_of_post_find,
    customer_display_name_find in H.
  rewrite Hu in H.
  destruct (find_post db (BlogComment.blog_post_id NEW)) as [bp|];
    cbn [option_map] in H.
  2:{ injection H as <-. exfalso.
      apply (f_equal (@List.length _)) in Hn. rewrite length_app in Hn.
      cbn in Hn. lia. }
  exists bp. split; [reflexivity|].
  apply insert_blog_comment_notification_ok in H. destruct H as (_ & _ & ->).
  cbn in Hn. apply app_inv_head in Hn.
  injection Hn as <-. cbn [BlogCommentNotification.message].
  unfold format_commented. rewrite preview_cases. cbn [coalesce].
  f_equal.
  destruct (find_profile db (AuthUser.id u)) as [[pid [fn|]]|];
    cbn [Profile.full_name display_name]; try reflexivity;
    destruct (AuthUser.email u); reflexivity.
Qed.

Lemma owner_notification_message_witness :
  exists n,
    blog_comment_notifications Sample.db1 = [n]
    /\ BlogCommentNotification.message n
       = "A customer commented on your blog post " ++ dquote ++ "Hello"
           ++ dquote ++ ": " ++ dquote ++ "Great food!" ++ dquote.
Proof.
  eexists. split; [reflexivity|].
  destruct (owner_notification_message
              (set_blog_comments [Sample.root] Sample.db0) Sample.db1
              Sample.root _
              (AuthUser.mk Sample.alice None) eq_refl eq_refl eq_refl)
    as [bp [Hbp Hm]].
  rewrite Hm. vm_compute in Hbp. injection Hbp as <-. reflexivity.
Defined.

(** C7, as the claim has it, fails for a customer whose profile has no
    full name and whose account has no e-mail address: there is then
    neither a full name nor a part of an address to show, and the
    message opens with the words A customer. *)
Lemma owner_message_for_nameless_customer :
  find_user Sample.db0 (BlogComment.customer_id Sample.root)
  = Some (AuthUser.mk Sample.alice None)
  /\ find_profile Sample.db0 Sample.alice = Some (Profile.mk Sample.alice None)
  /\ display_name None None = None
  /\ exists db' n,
       handle_blog_comment_notification Sample.root
         (set_blog_comments [Sample.root] Sample.db0) = Ok db'
       /\ blog_comment_notifications db' = [n]
       /\ BlogCommentNotification.message n
          = "A customer commented on your blog post " ++ dquote ++ "Hello"
              ++ dquote ++ ": " ++ dquote ++ "Great food!" ++ dquote.
Proof.
  repeat split. eexists. eexists. repeat split.
Qed.

(* ------------------------------------------------------------------ *)
(** ** What the aggregator stores *)

Lemma sum_ratings_bounds (l : list RestaurantRating.row) :
  Forall (fun x => 10 <= RestaurantRating.rating x <= 50) l ->
  10 * Z.of_nat (List.length l) <= sum_ratings l <= 50 * Z.of_nat (List.length l).
Proof.
  induction 1 as [|x l Hx _ IH]; cbn [sum_ratings fold_right List.length].
  - lia.
  - fold (sum_ratings l). lia.
Qed.

Lemma round_half_away_bounds (a b lo hi : Z) :
  0 < b -> 0 <= lo -> lo * b <= a <= hi * b ->
  lo <= round_half_away a b <= hi.
Proof.
  intros Hb Hlo Ha. unfold round_half_away.
  destruct (Z.ltb_spec a 0); [nia|]. split.
  - apply Z.div_le_lower_bound; nia.
  - apply Z.lt_succ_r. apply Z.div_lt_upper_bound; nia.
Qed.

Lemma rating_of_restaurant_update_same (rid : uuid) (v : decimal) (db : database) :
  find (fun r => uuid_eqb (Restaurant.id r) rid) (restaurants db) <> None ->
  rating_of_restaurant rid
    (set_restaurants (update_restaurant_rating rid v (restaurants db)) db)
  = Some v.
Proof.
  unfold rating_of_restaurant. cbn [restaurants set_restaurants].
  induction (restaurants db) as [|r rs IH]; cbn [find]; [congruence|].
  intros H. cbn [update_restaurant_rating map find].
  fold (update_restaurant_rating rid v rs).
  destruct (uuid_eqb (Restaurant.id r) rid) eqn:E.
  - cbn [Restaurant.id]. rewrite E. reflexivity.
  - rewrite E. apply IH. exact H.
Qed.

(** On a table that satisfies the CHECK the aggregator never raises,
    and for a restaurant with [n >= 1] rows of sum [s] (in tenths) it
    stores the mean rounded to hundredths and then to tenths. *)
Lemma recalculate_stores_twice_rounded (rid : uuid) (db : database) :
  Forall (fun x => 10 <= RestaurantRating.rating x <= 50) (restaurant_ratings db) ->
  exists db',
    recalculate_restaurant_rating rid db = Ok db'
    /\ restaurant_ratings db' = restaurant_ratings db
    /\ let rows := ratings_of rid (restaurant_ratings db) in
       rows <> [] ->
       find (fun r => uuid_eqb (Restaurant.id r) rid) (restaurants db) <> None ->
       rating_of_restaurant rid db'
       = Some (mkDecimal
                 (round_half_away
                    (round_half_away (sum_ratings rows * 100)
                       (10 * Z.of_nat (List.length rows)) * 10)
                    100)
                 1).
Proof.
  intros Hrange. unfold recalculate_restaurant_rating.
  assert (Hrows : Forall (fun x => 10 <= RestaurantRating.rating x <= 50)
                    (ratings_of rid (restaurant_ratings db))).
  { apply Forall_forall. intros x Hx. apply filter_In in Hx.
    rewrite Forall_forall in Hrange. now apply Hrange. }
  apply sum_ratings_bounds in Hrows.
  destruct (ratings_of rid (restaurant_ratings db)) as [|x rows] eqn:Erows.
  - eexists. split; [reflexivity|]. split; [reflexivity|].
    cbv zeta. intros Hne. now elim Hne.
  - cbn [avg_rating]. set (l := x :: rows) in *.
    assert (Hn : 0 < Z.of_nat (List.length l)) by (cbn; lia).
    set (n := Z.of_nat (List.length l)) in *.
    set (s := sum_ratings l) in *.
    assert (Hh : 100 <= round_half_away (s * 100) (10 * n) <= 500)
      by (apply round_half_away_bounds; nia).
    set (h := round_half_away (s * 100) (10 * n)) in *.
    assert (Ht : 10 <= round_half_away (h * 10) 100 <= 50)
      by (apply round_half_away_bounds; lia).
    set (t := round_half_away (h * 10) 100) in *.
    unfold cast_numeric at 1.
    change (10 ^ Z.of_nat 2) with 100. change (10 ^ Z.of_nat 3) with 1000.
    fold h. destruct (Z.ltb_spec (Z.abs h) 1000) as [_|Habs]; [|lia].
    cbn [bind]. fold t. unfold cast_numeric.
    change (10 ^ Z.of_nat 1) with 10. change (10 ^ Z.of_nat 2) with 100.
    rewrite round_half_away_exact by lia.
    destruct (Z.ltb_spec (Z.abs t) 100) as [_|Habs]; [|lia].
    cbn [bind]. eexists. split; [reflexivity|]. split; [reflexivity|].
    cbv zeta. intros _ Hfind. apply rating_of_restaurant_update_same. exact Hfind.
Qed.

(** On such a table a delete always goes through. *)
Lemma delete_rating_succeeds (rid : uuid) (db : database) :
  ratings_consistent (restaurant_ratings db) ->
  exists db', exec (DeleteRating rid) db = Ok db'.
Proof.
  intros Hl. apply (consistent_rows_except _ rid) in Hl.
  destruct Hl as [Hrange _]. cbn [exec].
  destruct (find_rating rid (restaurant_ratings db)) as [OLD|];
    [|eexists; reflexivity].
  cbn [handle_restaurant_rating_change].
  destruct (recalculate_stores_twice_rounded (RestaurantRating.restaurant_id OLD)
              (set_restaurant_ratings (rows_except rid (restaurant_ratings db)) db)
              Hrange) as [db' [H _]].
  exists db'. exact H.
Qed.

(* ------------------------------------------------------------------ *)
(** ** Text: lengths, previews, the part before the at sign *)

Lemma length_app_string (a b : string) :
  length (a ++ b) = (length a + length b)%nat.
Proof.
  induction a as [|c a IH]; cbn [append length]; [reflexivity|].
  now rewrite IH.
Qed.

Lemma app_string_assoc (a b c : string) : (a ++ b) ++ c = a ++ (b ++ c).
Proof.
  induction a as [|x a IH]; cbn [append]; [reflexivity|]. now rewrite IH.
Qed.

Lemma length_left (s : string) (n : nat) :
  length (left s n) = Nat.min n (length s).
Proof.
  unfold left. revert s. induction n as [|n IH]; intros s.
  - destruct s; reflexivity.
  - destruct s as [|c s]; [reflexivity|].
    cbn [substring length Nat.min]. now rewrite IH.
Qed.

(** The preview the two comment triggers quote is never longer than 100
    characters: it has the length of the comment up to 100, and exactly
    100 beyond. *)
Theorem preview_length (c : string) :
  length (preview c) = Nat.min (length c) 100.
Proof.
  unfold preview. destruct (Nat.ltb_spec 100 (length c)) as [H|H].
  - rewrite length_app_string, length_left. cbn [length]. lia.
  - lia.
Qed.

Lemma split_part_at_1_local (local rest : string) :
  no_at_sign local = true ->
  split_part_at_1 (local ++ String "@" rest) = local.
Proof.
  induction local as [|c local IH]; cbn [append split_part_at_1 no_at_sign].
  - reflexivity.
  - intros H. apply andb_true_iff in H. destruct H as [Hc Hl].
    apply negb_true_iff in Hc. rewrite Hc. now rewrite IH.
Qed.

Lemma split_part_at_1_whole (s : string) :
  no_at_sign s = true -> split_part_at_1 s = s.
Proof.
  induction s as [|c s IH]; cbn [split_part_at_1 no_at_sign]; [reflexivity|].
  intros H. apply andb_true_iff in H. destruct H as [Hc Hl].
  apply negb_true_iff in Hc. rewrite Hc. now rewrite IH.
Qed.

Lemma split_part_at_1_no_at_sign (s : string) :
  no_at_sign (split_part_at_1 s) = true.
Proof.
  induction s as [|c s IH]; cbn [split_part_at_1]; [reflexivity|].
  destruct (Ascii.eqb c "@") eqn:E; [reflexivity|].
  cbn [no_at_sign]. now rewrite E, IH.
Qed.

(* ------------------------------------------------------------------ *)
(** ** The title the customer hook reads out of a message *)

Lemma quote_is_no_letter (q : ascii) :
  is_quote q = true ->
  Ascii.eqb q "o" = false /\ Ascii.eqb q "n" = false /\ Ascii.eqb q " " = false.
Proof.
  unfold is_quote. intros H. apply orb_true_iff in H.
  destruct H as [H|H]; apply Ascii.eqb_eq in H; subst q; repeat split.
Qed.

Lemma no_quotes_app (a b : string) :
  no_quotes (a ++ b) = no_quotes a && no_quotes b.
Proof.
  induction a as [|c a IH]; cbn [append no_quotes]; [reflexivity|].
  now rewrite IH, andb_assoc.
Qed.

Lemma no_quotes_left (s : string) (n : nat) :
  no_quotes s = true -> no_quotes (left s n) = true.
Proof.
  unfold left. revert s. induction n as [|n IH]; intros s H.
  - destruct s; reflexivity.
  - destruct s as [|c s]; [reflexivity|].
    cbn [no_quotes] in H. apply andb_true_iff in H. destruct H as [Hc Hs].
    cbn [substring no_quotes]. now rewrite Hc, IH.
Qed.

Lemma no_quotes_preview (c : string) :
  no_quotes c = true -> no_quotes (preview c) = true.
Proof.
  intros H. unfold preview. destruct (100 <? length c)%nat; [|exact H].
  rewrite no_quotes_app, no_quotes_left by exact H. reflexivity.
Qed.

Lemma eqb_on_length (s : string) :
  length s <> 3%nat -> String.eqb s "on " = false.
Proof.
  intros H. apply String.eqb_neq. intros ->. now apply H.
Qed.

Lemma ends_with_on_app (a s : string) :
  (3 < length s)%nat -> ends_with_on (a ++ s) = ends_with_on s.
Proof.
  intros Hs. induction a as [|c a IH]; [reflexivity|].
  cbn [append ends_with_on]. rewrite IH.
  rewrite eqb_on_length; [reflexivity|].
  cbn [length]. rewrite length_app_string. lia.
Qed.

Lemma take_non_quotes_run (t : string) (q : ascii) (rest : string) :
  no_quotes t = true -> is_quote q = true ->
  take_non_quotes (t ++ String q rest) = (t, String q rest).
Proof.
  intros Ht Hq. induction t as [|c t IH]; cbn [append take_non_quotes].
  - now rewrite Hq.
  - cbn [no_quotes] in Ht. apply andb_true_iff in Ht. destruct Ht as [Hc Ht].
    apply negb_true_iff in Hc. rewrite Hc, (IH Ht). reflexivity.
Qed.

Lemma match_here_not_o (a : ascii) (s : string) :
  Ascii.eqb a "o" = false -> match_here (String a s) = None.
Proof.
  intros H. destruct s as [|b [|c [|q r]]]; cbn [match_here]; try reflexivity.
  now rewrite H.
Qed.

(** Anchored at a stretch without quotes that a quote follows, the
    expression matches only when the stretch is exactly the letters on
    and a space. *)
Lemma match_here_before_quote (p : string) (q : ascii) (rest : string) :
  no_quotes p = true -> is_quote q = true ->
  match_here (p ++ String q rest)
  = if String.eqb p "on " then match_title rest else None.
Proof.
  intros Hp Hq. destruct (quote_is_no_letter q Hq) as [Ho [Hn Hs]].
  destruct p as [|a [|b [|c [|d p]]]]; cbn [append].
  - now rewrite match_here_not_o.
  - destruct rest as [|x [|y r]]; cbn [match_here String.eqb];
      rewrite ?Hn, ?andb_false_r; destruct (Ascii.eqb a "o"); reflexivity.
  - destruct rest as [|x r]; cbn [match_here String.eqb];
      rewrite ?Hs, ?andb_false_r;
      destruct (Ascii.eqb a "o"), (Ascii.eqb b "n"); reflexivity.
  - cbn [match_here String.eqb]. rewrite Hq, andb_true_r.
    destruct (Ascii.eqb a "o"), (Ascii.eqb b "n"), (Ascii.eqb c " ");
      reflexivity.
  - cbn [no_quotes] in Hp. rewrite !andb_true_iff in Hp.
    destruct Hp as [_ [_ [_ [Hd _]]]]. apply negb_true_iff in Hd.
    cbn [match_here String.eqb]. rewrite Hd, !andb_false_r.
    destruct (Ascii.eqb a "o"), (Ascii.eqb b "n"), (Ascii.eqb c " ");
      reflexivity.
Qed.

(** The search steps from quote to quote: over a stretch without
    quotes it can only match at the stretch's end. *)
Lemma extract_step (p : string) (q : ascii) (rest : string) :
  no_quotes p = true -> is_quote q = true ->
  extractBlogTitleFromMessage (p ++ String q rest)
  = match (if ends_with_on p then match_title rest else None) with
    | Some t => Some t
    | None => extractBlogTitleFromMessage rest
    end.
Proof.
  intros Hp Hq. induction p as [|c p IH].
  - cbn [append extractBlogTitleFromMessage].
    rewrite match_here_not_o by apply (quote_is_no_letter q Hq). reflexivity.
  - pose proof (match_here_before_quote (String c p) q rest Hp Hq) as Hm.
    cbn [no_quotes] in Hp. apply andb_true_iff in Hp. destruct Hp as [_ Hp].
    specialize (IH Hp).
    cbn [append] in *. cbn [extractBlogTitleFromMessage]. rewrite Hm, IH.
    cbn [ends_with_on].
    destruct (String.eqb (String c p) "on "); cbn [orb].
    + destruct (match_title rest); [reflexivity|].
      destruct (ends_with_on p); reflexivity.
    + reflexivity.
Qed.

Lemma match_title_run (t : string) (q : ascii) (rest : string) :
  no_quotes t = true -> is_quote q = true -> t <> EmptyString ->
  match_title (t ++ String q rest) = Some t.
Proof.
  intros Ht Hq Hne. unfold match_title.
  rewrite take_non_quotes_run by assumption.
  destruct t; [now elim Hne|reflexivity].
Qed.

Lemma dquote_is_quote : is_quote (ascii_of_nat 34) = true.
Proof. reflexivity. Qed.

(** The message of the first version of the trigger gives its post's
    title back. *)
Lemma extract_team_replied (who post : string) :
  no_quotes who = true -> no_quotes post = true -> post <> EmptyString ->
  extractBlogTitleFromMessage (Part007.format_team_replied who post) = Some post.
Proof.
  intros Hw Hp Hne. unfold Part007.format_team_replied, dquote.
  replace ("The " ++ who ++ " team replied to your comment on "
             ++ String (ascii_of_nat 34) EmptyString ++ post
             ++ String (ascii_of_nat 34) EmptyString
             ++ ". Click to read what they said!")
    with (("The " ++ who ++ " team replied to your comment on ")
            ++ String (ascii_of_nat 34)
                 (post ++ String (ascii_of_nat 34)
                            ". Click to read what they said!")).
  2:{ rewrite !app_string_assoc. reflexivity. }
  rewrite extract_step; [|now rewrite !no_quotes_app, Hw|exact dquote_is_quote].
  replace ("The " ++ who ++ " team replied to your comment on ")
    with (("The " ++ who) ++ " team replied to your comment on ")
    by (rewrite !app_string_assoc; reflexivity).
  rewrite ends_with_on_app by (cbn; lia).
  change (ends_with_on " team replied to your comment on ") with true.
  rewrite match_title_run by (assumption || exact dquote_is_quote).
  reflexivity.
Qed.

(** The message of the current trigger gives no title. *)
Lemma extract_replied (who what : string) :
  no_quotes who = true -> no_quotes what = true ->
  extractBlogTitleFromMessage (format_replied who what) = None.
Proof.
  intros Hw Hc. unfold format_replied, dquote.
  replace (who ++ " replied: " ++ String (ascii_of_nat 34) EmptyString ++ what
             ++ String (ascii_of_nat 34) EmptyString)
    with ((who ++ " replied: ")
            ++ String (ascii_of_nat 34)
                 (what ++ String (ascii_of_nat 34) EmptyString)).
  2:{ rewrite !app_string_assoc. reflexivity. }
  rewrite extract_step; [|now rewrite no_quotes_app, Hw|exact dquote_is_quote].
  rewrite ends_with_on_app by (cbn; lia).
  change (ends_with_on " replied: ") with false. cbv iota.
  rewrite extract_step by (assumption || exact dquote_is_quote).
  change (match_title EmptyString) with (@None string).
  destruct (ends_with_on what); reflexivity.
Qed.

(* ------------------------------------------------------------------ *)
(** ** The versions of the reply trigger side by side *)

Lemma reply_row (db : database) (NEW : BlogComment.row) (parent author : uuid) :
  BlogComment.parent_comment_id NEW = Some parent ->
  comment_author db parent = Some author ->
  handle_blog_comment_reply NEW db
  = set_customer_notifications
      (customer_notifications db ++
         [CustomerNotification.mk author None "Comment Reply"
            (format_replied
               (coalesce (restaurant_name_of_post db (BlogComment.blog_post_id NEW))
                  "Restaurant")
               (preview (BlogComment.content NEW)))
            "unread" (Some (BlogComment.blog_post_id NEW))
            (Some (BlogComment.content NEW))
            (restaurant_name_of_post db (BlogComment.blog_post_id NEW))])
      db.
Proof.
  intros Hp Ha. unfold handle_blog_comment_reply. now rewrite Hp, Ha.
Qed.

(** The first version of the reply trigger (part_007) and the current
    one notify the same customers, about the same posts, with the same
    title and status, and leave every other table alone; they differ
    in the message, the stored reply and the stored restaurant name. *)
Theorem first_and_current_reply_trigger_agree (db : database)
  (NEW : BlogComment.row) :
  map notification_core
    (customer_notifications (Part007.handle_blog_comment_reply NEW db))
  = map notification_core
      (customer_notifications (handle_blog_comment_reply NEW db))
  /\ set_customer_notifications (customer_notifications db)
       (Part007.handle_blog_comment_reply NEW db)
     = db
  /\ set_customer_notifications (customer_notifications db)
       (handle_blog_comment_reply NEW db)
     = db.
Proof.
  unfold Part007.handle_blog_comment_reply, handle_blog_comment_reply.
  destruct (BlogComment.parent_comment_id NEW) as [parent|];
    [destruct (comment_author db parent) as [author|]|];
    destruct db; cbn; rewrite ?map_app; repeat split.
Qed.

(** The version of SIMPLE_FIX_SCRIPT.sql does what the current one does
    whenever the restaurant's name resolves or the trigger returns
    early; when the parent resolves and the name does not, its message
    is NULL where the current version says Restaurant. *)
Theorem simple_fix_reply_trigger (db : database) (NEW : BlogComment.row) :
  (restaurant_name_of_post db (BlogComment.blog_post_id NEW) <> None ->
   SimpleFix.handle_blog_comment_reply NEW db
   = Some (handle_blog_comment_reply NEW db))
  /\ (handle_blog_comment_reply NEW db = db ->
      SimpleFix.handle_blog_comment_reply NEW db = Some db)
  /\ (forall parent author,
        BlogComment.parent_comment_id NEW = Some parent ->
        comment_author db parent = Some author ->
        restaurant_name_of_post db (BlogComment.blog_post_id NEW) = None ->
        SimpleFix.handle_blog_comment_reply NEW db = None
        /\ exists r,
             customer_notifications (handle_blog_comment_reply NEW db)
             = (customer_notifications db ++ [r])%list
             /\ CustomerNotification.message r
                = "Restaurant replied: " ++ dquote
                    ++ preview (BlogComment.content NEW) ++ dquote).
Proof.
  unfold SimpleFix.handle_blog_comment_reply, handle_blog_comment_reply.
  split; [|split].
  - intros Hname.
    destruct (BlogComment.parent_comment_id NEW) as [parent|]; [|reflexivity].
    destruct (comment_author db parent) as [author|]; [|reflexivity].
    destruct (restaurant_name_of_post db (BlogComment.blog_post_id NEW))
      as [name|]; [|now elim Hname].
    cbn [SimpleFix.reply_message SimpleFix.concat_null coalesce].
    unfold format_replied. rewrite !app_string_assoc. reflexivity.
  - destruct (BlogComment.parent_comment_id NEW) as [parent|]; [|reflexivity].
    destruct (comment_author db parent) as [author|]; [|reflexivity].
    intros H. exfalso.
    apply (f_equal (fun d => List.length (customer_notifications d))) in H.
    cbn in H. rewrite length_app in H. cbn in H. lia.
  - intros parent author Hp Ha Hn. rewrite Hp, Ha, Hn. split; [reflexivity|].
    eexists. split; reflexivity.
Qed.

Lemma simple_fix_reply_trigger_witness :
  SimpleFix.handle_blog_comment_reply Sample.reply Sample.db1
  = Some (handle_blog_comment_reply Sample.reply Sample.db1)
  /\ SimpleFix.handle_blog_comment_reply Sample.reply Sample.db1_nameless = None.
Proof.
  split.
  - apply (proj1 (simple_fix_reply_trigger Sample.db1 Sample.reply)).
    discriminate.
  - apply (proj2 (proj2 (simple_fix_reply_trigger Sample.db1_nameless
                           Sample.reply))
             Sample.root_comment Sample.alice eq_refl eq_refl eq_refl).
Defined.

(* ------------------------------------------------------------------ *)
(** ** From the trigger to the customer's screen *)

(** A notification of the current reply trigger reaches the customer's
    list marked as a blog reply, the same way on the initial fetch and
    on the realtime feed, and with no blog title: when neither the
    restaurant's name nor the reply has a quote character the message
    has nothing the hook's expression matches. *)
Theorem current_reply_reaches_client_without_title (db : database)
  (NEW : BlogComment.row) (parent author : uuid) :
  BlogComment.parent_comment_id NEW = Some parent ->
  comment_author db parent = Some author ->
  no_quotes
    (coalesce (restaurant_name_of_post db (BlogComment.blog_post_id NEW))
       "Restaurant") = true ->
  no_quotes (BlogComment.content NEW) = true ->
  exists r,
    customer_notifications (handle_blog_comment_reply NEW db)
    = (customer_notifications db ++ [r])%list
    /\ forall id created_at,
         Client.is_blog_reply (enhance id created_at r) = true
         /\ Client.blog_title (enhance id created_at r) = None
         /\ enhance_fetched id created_at r = enhance id created_at r.
Proof.
  intros Hp Ha Hw Hc. rewrite (reply_row db NEW parent author Hp Ha).
  eexists. split; [reflexivity|]. intros id t.
  unfold enhance, enhance_fetched.
  cbn [CustomerNotification.title CustomerNotification.message
       CustomerNotification.order_id CustomerNotification.status
       Client.is_blog_reply Client.blog_title].
  change (String.eqb "Comment Reply" "Comment Reply") with true.
  rewrite extract_replied by (assumption || now apply no_quotes_preview).
  assert (Hne : String.eqb
                  (format_replied
                     (coalesce
                        (restaurant_name_of_post db (BlogComment.blog_post_id NEW))
                        "Restaurant")
                     (preview (BlogComment.content NEW))) "" = false).
  { apply String.eqb_neq. intros H. apply (f_equal length) in H.
    unfold format_replied in H. rewrite !length_app_string in H.
    cbn in H. lia. }
  rewrite Hne. repeat split.
Qed.

Lemma current_reply_reaches_client_without_title_witness :
  exists r,
    customer_notifications (handle_blog_comment_reply Sample.reply Sample.db1)
    = (customer_notifications Sample.db1 ++ [r])%list
    /\ Client.blog_title (enhance 1%N 0 r) = None.
Proof.
  destruct (current_reply_reaches_client_without_title Sample.db1 Sample.reply
              Sample.root_comment Sample.alice eq_refl eq_refl eq_refl eq_refl)
    as [r [H1 H2]].
  exists r. split; [exact H1|]. apply H2.
Defined.

(** A notification of the first reply trigger (part_007) gives the
    customer's hook its post's title back, when the title is not empty
    and neither it nor the restaurant's name has a quote character. *)
Theorem first_reply_title_round_trip (db : database) (NEW : BlogComment.row)
  (parent author : uuid) (bp : BlogPost.row) :
  BlogComment.parent_comment_id NEW = Some parent ->
  comment_author db parent = Some author ->
  find_post db (BlogComment.blog_post_id NEW) = Some bp ->
  BlogPost.title bp <> EmptyString ->
  no_quotes (BlogPost.title bp) = true ->
  no_quotes
    (coalesce (restaurant_name_of_post db (BlogComment.blog_post_id NEW))
       "restaurant") = true ->
  exists r,
    customer_notifications (Part007.handle_blog_comment_reply NEW db)
    = (customer_notifications db ++ [r])%list
    /\ forall id created_at,
         Client.is_blog_reply (enhance id created_at r) = true
         /\ Client.blog_title (enhance id created_at r) = Some (BlogPost.title bp).
Proof.
  intros Hp Ha Hbp Hne Ht Hw. unfold Part007.handle_blog_comment_reply.
  rewrite Hp, Ha, title_of_post_find, Hbp. cbn [option_map coalesce].
  eexists. split; [reflexivity|]. intros id t. unfold enhance.
  cbn [CustomerNotification.title CustomerNotification.message
       Client.is_blog_reply Client.blog_title].
  change (String.eqb "Comment Reply" "Comment Reply") with true.
  split; [reflexivity|]. now apply extract_team_replied.
Qed.

Lemma first_reply_title_round_trip_witness :
  exists r,
    customer_notifications (Part007.handle_blog_comment_reply Sample.reply Sample.db1)
    = (customer_notifications Sample.db1 ++ [r])%list
    /\ Client.blog_title (enhance 1%N 0 r) = Some "Hello".
Proof.
  assert (Hne : BlogPost.title (BlogPost.mk Sample.post Sample.bistro "Hello" true)
                <> EmptyString) by discriminate.
  destruct (first_reply_title_round_trip Sample.db1 Sample.reply
              Sample.root_comment Sample.alice
              (BlogPost.mk Sample.post Sample.bistro "Hello" true)
              eq_refl eq_refl eq_refl Hne eq_refl eq_refl)
    as [r [H1 H2]].
  exists r. split; [exact H1|]. apply H2.
Defined.

(** A click on a notification of the reply trigger leads to the blog;
    a click on a rating prompt leads to the page of its order. *)
Theorem click_follows_the_trigger (db : database) (id : uuid) (created_at : Z)
  (store_error : bool) (prev : list Client.row) :
  (forall NEW added r,
      customer_notifications (handle_blog_comment_reply NEW db)
      = (customer_notifications db ++ added)%list ->
      In r added ->
      snd (handleNotificationClick (enhance id created_at r) store_error prev)
      = to_blog)
  /\ (forall OLD NEW added r,
        customer_notifications
          (handle_order_status_rating_prompt (UPDATE OLD NEW) db)
        = (customer_notifications db ++ added)%list ->
        In r added ->
        snd (handleNotificationClick (enhance id created_at r) store_error prev)
        = to_order (Order.id NEW)).
Proof.
  split.
  - intros NEW added r H Hin. unfold handle_blog_comment_reply in H.
    destruct (BlogComment.parent_comment_id NEW) as [parent|].
    2:{ rewrite <- (app_nil_r (customer_notifications db)) in H at 1.
        apply app_inv_head in H. subst added. destruct Hin. }
    destruct (comment_author db parent) as [author|].
    2:{ rewrite <- (app_nil_r (customer_notifications db)) in H at 1.
        apply app_inv_head in H. subst added. destruct Hin. }
    cbn in H. apply app_inv_head in H. subst added.
    destruct Hin as [<-|[]]. reflexivity.
  - intros OLD NEW added r H Hin.
    cbn [handle_order_status_rating_prompt] in H.
    assert (Hnil : customer_notifications db
                   = (customer_notifications db ++ added)%list -> False).
    { intros E. rewrite <- (app_nil_r (customer_notifications db)) in E at 1.
      apply app_inv_head in E. subst added. destruct Hin. }
    destruct (Order.customer_id NEW) as [c|]; [|now elim Hnil].
    destruct (Order.restaurant_id NEW) as [rr|]; [|now elim Hnil].
    destruct (_ && _); [|now elim Hnil].
    destruct (existing_rating_id db rr c (Order.id NEW)); [now elim Hnil|].
    cbn in H. apply app_inv_head in H. subst added.
    destruct Hin as [<-|[]]. reflexivity.
Qed.

Lemma click_follows_the_trigger_witness :
  snd (handleNotificationClick
         (enhance 1%N 0 (rating_prompt Sample.alice Sample.order1)) false [])
  = to_order Sample.order1.
Proof.
  apply (proj2 (click_follows_the_trigger Sample.db0 1%N 0 false [])
           Sample.paid_order Sample.completed_order
           [rating_prompt Sample.alice Sample.order1]
           (rating_prompt Sample.alice Sample.order1) eq_refl).
  left. reflexivity.
Defined.

(* ------------------------------------------------------------------ *)
(** ** The client's list of notifications *)

Lemma slice_to_head {A : Type} (limit : Z) (x : A) (l : list A) :
  (slice_to limit (x :: l) = [] /\ slice_to limit [x] = [])
  \/ exists k, slice_to limit (x :: l) = x :: firstn k l.
Proof.
  unfold slice_to. destruct (Z.ltb_spec limit 0) as [Hneg|Hpos].
  - destruct (Z.to_nat (Z.max (Z.of_nat (List.length (x :: l)) + limit) 0))
      as [|k] eqn:Ek.
    + left. split; [reflexivity|].
      replace (Z.to_nat (Z.max (Z.of_nat (List.length [x]) + limit) 0)) with O
        by (cbn [List.length]; lia).
      reflexivity.
    + right. exists k. reflexivity.
  - destruct (Z.to_nat limit) as [|k] eqn:Ek.
    + left. split; reflexivity.
    + right. exists k. reflexivity.
Qed.

Lemma ids_firstn (k : nat) (l : list Client.row) :
  NoDup (map Client.id l) -> NoDup (map Client.id (firstn k l)).
Proof.
  intros H. rewrite <- (firstn_skipn k l), map_app in H.
  now apply NoDup_app_remove_r in H.
Qed.

Lemma not_received_yet (inc : Client.row) (prev : list Client.row) :
  existsb (fun n => uuid_eqb (Client.id n) (Client.id inc)) prev = false ->
  ~ In (Client.id inc) (map Client.id prev).
Proof.
  intros H Hin. apply in_map_iff in Hin. destruct Hin as [n [Hid Hn]].
  assert (E : existsb (fun n => uuid_eqb (Client.id n) (Client.id inc)) prev
              = true).
  { apply existsb_exists. exists n. split; [exact Hn|]. now apply N.eqb_eq. }
  congruence.
Qed.

(** The realtime update never lists a notification twice: receiving one
    a second time changes nothing, whatever the limit, and a list with
    distinct identifiers keeps them distinct. *)
Theorem receive_once (limit : Z) (incoming : Client.row)
  (prev : list Client.row) :
  receive limit incoming (receive limit incoming prev)
  = receive limit incoming prev
  /\ (NoDup (map Client.id prev) ->
      NoDup (map Client.id (receive limit incoming prev))).
Proof.
  destruct (existsb (fun n => uuid_eqb (Client.id n) (Client.id incoming)) prev)
    eqn:E.
  - assert (R : receive limit incoming prev = prev)
      by (unfold receive; now rewrite E).
    rewrite !R. split; [reflexivity|tauto].
  - destruct (slice_to_head limit incoming prev) as [[H0 H1]|[k Hk]].
    + assert (R : receive limit incoming prev = [])
        by (unfold receive; now rewrite E).
      rewrite !R. split; [|constructor].
      unfold receive. cbn [existsb]. exact H1.
    + assert (R : receive limit incoming prev = incoming :: firstn k prev)
        by (unfold receive; now rewrite E).
      rewrite !R. split.
      * unfold receive. cbn [existsb]. unfold uuid_eqb. now rewrite N.eqb_refl.
      * intros Hnd. cbn [map]. constructor.
        -- intros Hin. apply (not_received_yet incoming prev E).
           rewrite <- (firstn_skipn k prev), map_app. apply in_or_app. now left.
        -- now apply ids_firstn.
Qed.

Lemma receive_once_witness :
  NoDup
    (map Client.id
       (receive 10 (enhance 2%N 5 (rating_prompt Sample.alice Sample.order1))
          [enhance 1%N 0 (rating_prompt Sample.alice Sample.order1)])).
Proof.
  apply (proj2 (receive_once 10
                  (enhance 2%N 5 (rating_prompt Sample.alice Sample.order1))
                  [enhance 1%N 0 (rating_prompt Sample.alice Sample.order1)])).
  constructor; [intros []|constructor].
Defined.

(** With a limit that is not negative the list never grows past it, and
    a new notification goes to the head, pushing out what no longer
    fits. *)
Theorem receive_within_limit (limit : Z) (incoming : Client.row)
  (prev : list Client.row) :
  0 <= limit ->
  (Z.of_nat (List.length prev) <= limit ->
   Z.of_nat (List.length (receive limit incoming prev)) <= limit)
  /\ (existsb (fun n => uuid_eqb (Client.id n) (Client.id incoming)) prev
      = false ->
      0 < limit ->
      receive limit incoming prev
      = incoming :: firstn (Z.to_nat limit - 1) prev).
Proof.
  intros Hlimit. unfold receive, slice_to.
  destruct (Z.ltb_spec limit 0) as [Hneg|_]; [lia|]. split.
  - intros Hlen. destruct (existsb _ prev); [exact Hlen|].
    rewrite length_firstn. lia.
  - intros -> Hpos. destruct (Z.to_nat limit) as [|k] eqn:Ek; [lia|].
    cbn [firstn]. f_equal. f_equal. lia.
Qed.

Lemma receive_within_limit_witness :
  receive 1 (enhance 2%N 5 (rating_prompt Sample.alice Sample.order1))
    [enhance 1%N 0 (rating_prompt Sample.alice Sample.order1)]
  = [enhance 2%N 5 (rating_prompt Sample.alice Sample.order1)].
Proof.
  rewrite (proj2 (receive_within_limit 1
                    (enhance 2%N 5 (rating_prompt Sample.alice Sample.order1))
                    [enhance 1%N 0 (rating_prompt Sample.alice Sample.order1)]
                    ltac:(lia)) eq_refl ltac:(lia)).
  reflexivity.
Defined.

Lemma as_read_not_unread (n : Client.row) : is_unread (as_read n) = false.
Proof. reflexivity. Qed.

(** After mark-all-as-read on the list it was computed from, nothing is
    unread, and the notifications are the same ones in the same order:
    each is what it was in every field but the status, which is what
    it was or read; when the store reports an error the list is left
    as it was. *)
Theorem markAllAsRead_clears (notifications : list Client.row) :
  unreadCount (markAllAsRead notifications false notifications) = O
  /\ Forall2
       (fun n m =>
          same_but_status n m
          /\ (Client.status m = Client.status n \/ Client.status m = "read"))
       notifications (markAllAsRead notifications false notifications)
  /\ markAllAsRead notifications true notifications = notifications.
Proof.
  assert (Hsame : forall (f : Client.row -> bool) l,
             Forall2
               (fun n m =>
                  same_but_status n m
                  /\ (Client.status m = Client.status n
                      \/ Client.status m = "read"))
               l (map (fun n => if f n then as_read n else n) l)).
  { intros f l. induction l as [|n l IH]; cbn [map]; constructor; [|exact IH].
    destruct (f n).
    - split; [repeat split|]. right. reflexivity.
    - split; [repeat split|]. left. reflexivity. }
  unfold markAllAsRead, unreadCount.
  destruct notifications as [|x l] eqn:El; [repeat split; constructor|].
  rewrite <- El. clear El x l.
  destruct (map Client.id (filter is_unread notifications)) as [|i ids] eqn:Eids.
  - split; [|split; [|reflexivity]].
    + apply map_eq_nil in Eids. now rewrite Eids.
    + clear Eids Hsame.
      induction notifications as [|n l IH]; constructor; [|exact IH].
      split; [repeat split|]. left. reflexivity.
  - rewrite <- Eids. clear Eids i ids. split; [|split; [|reflexivity]].
    + assert (H : forall l,
                 (forall n, In n l -> In n notifications) ->
                 filter is_unread
                   (map (fun n =>
                           if existsb (uuid_eqb (Client.id n))
                                (map Client.id (filter is_unread notifications))
                           then as_read n else n) l) = []).
      { induction l as [|n l IH]; intros Hsub; [reflexivity|].
        cbn [map filter].
        destruct (existsb _ _) eqn:E.
        - rewrite as_read_not_unread. apply IH. intros m Hm. apply Hsub. now right.
        - destruct (is_unread n) eqn:Eu.
          + exfalso.
            assert (Hex : existsb (uuid_eqb (Client.id n))
                            (map Client.id (filter is_unread notifications))
                          = true).
            { apply existsb_exists. exists (Client.id n). split.
              - apply in_map. apply filter_In. split; [|exact Eu].
                apply Hsub. now left.
              - unfold uuid_eqb. apply N.eqb_refl. }
            congruence.
          + apply IH. intros m Hm. apply Hsub. now right. }
      rewrite H; [reflexivity|tauto].
    + apply (Hsame (fun n => existsb (uuid_eqb (Client.id n))
                               (map Client.id (filter is_unread notifications)))).
Qed.

Lemma markAsRead_elsewhere (i : uuid) (l : list Client.row) :
  ~ In i (map Client.id l) ->
  map (fun n => if uuid_eqb (Client.id n) i then as_read n else n) l = l.
Proof.
  intros H. rewrite <- (map_id l) at 2. apply map_ext_in. intros n Hn.
  destruct (uuid_eqb (Client.id n) i) eqn:E; [|reflexivity].
  apply N.eqb_eq in E. exfalso. apply H. rewrite <- E. now apply in_map.
Qed.

(** Marking an unread notification as read lowers the unread count by
    exactly one when identifiers are distinct; doing it again changes
    nothing; and when the store reports an error the list stays as it
    was. *)
Theorem markAsRead_counts (n : Client.row) (prev : list Client.row) :
  NoDup (map Client.id prev) ->
  In n prev ->
  is_unread n = true ->
  S (unreadCount (markAsRead (Some (Client.id n)) false prev)) = unreadCount prev
  /\ markAsRead (Some (Client.id n)) false
       (markAsRead (Some (Client.id n)) false prev)
     = markAsRead (Some (Client.id n)) false prev
  /\ markAsRead (Some (Client.id n)) true prev = prev.
Proof.
  intros Hnd Hin Hu. unfold markAsRead, unreadCount. split; [|split].
  - induction prev as [|x l IH]; [destruct Hin|].
    cbn [map] in Hnd. apply NoDup_cons_iff in Hnd. destruct Hnd as [Hx Hnd].
    destruct Hin as [->|Hin].
    + cbn [map]. unfold uuid_eqb at 1. rewrite N.eqb_refl.
      rewrite markAsRead_elsewhere by exact Hx.
      cbn [filter]. rewrite as_read_not_unread, Hu. reflexivity.
    + cbn [map].
      destruct (uuid_eqb (Client.id x) (Client.id n)) eqn:E.
      * apply N.eqb_eq in E. exfalso. apply Hx. rewrite E. now apply in_map.
      * cbn [filter]. destruct (is_unread x); cbn [List.length];
          rewrite <- (IH Hnd Hin); reflexivity.
  - rewrite map_map. apply map_ext. intros m.
    destruct (uuid_eqb (Client.id m) (Client.id n)) eqn:E; [|now rewrite E].
    cbn [as_read Client.id]. now rewrite E.
  - reflexivity.
Qed.

Lemma markAsRead_counts_witness :
  unreadCount
    (markAsRead (Some 1%N) false
       [enhance 1%N 0 (rating_prompt Sample.alice Sample.order1)])
  = O.
Proof.
  apply eq_add_S.
  apply (proj1 (markAsRead_counts
                  (enhance 1%N 0 (rating_prompt Sample.alice Sample.order1))
                  [enhance 1%N 0 (rating_prompt Sample.alice Sample.order1)]
                  ltac:(constructor; [intros []|constructor])
                  (or_introl eq_refl) eq_refl)).
Defined.

(** Mark-all-as-read marks what was unread when the callback was
    created: a notification that arrives in between, with a new
    identifier, is still unread, at the head of the list, afterwards. *)
Theorem markAllAsRead_misses_new_arrival (limit : Z) (incoming : Client.row)
  (notifications : list Client.row) :
  0 < limit ->
  existsb (fun n => uuid_eqb (Client.id n) (Client.id incoming)) notifications
  = false ->
  is_unread incoming = true ->
  exists rest,
    markAllAsRead notifications false (receive limit incoming notifications)
    = incoming :: rest
    /\ (0 < unreadCount (incoming :: rest))%nat.
Proof.
  intros Hlimit Hnew Hu.
  assert (Hcount : forall rest, (0 < unreadCount (incoming :: rest))%nat).
  { intros rest. unfold unreadCount. cbn [filter]. rewrite Hu.
    cbn [List.length]. lia. }
  pose proof (not_received_yet _ _ Hnew) as Hfresh.
  unfold receive, slice_to. rewrite Hnew.
  destruct (Z.ltb_spec limit 0) as [Hneg|_]; [lia|].
  destruct (Z.to_nat limit) as [|k] eqn:Ek; [lia|]. cbn [firstn].
  unfold markAllAsRead.
  destruct notifications as [|x l] eqn:El; [eexists; split; [reflexivity|apply Hcount]|].
  rewrite <- El in *. clear El x l.
  destruct (map Client.id (filter is_unread notifications)) as [|i ids] eqn:Eids;
    [eexists; split; [reflexivity|apply Hcount]|].
  rewrite <- Eids. clear Eids i ids. cbn [map].
  destruct (existsb (uuid_eqb (Client.id incoming))
              (map Client.id (filter is_unread notifications))) eqn:E;
    [|eexists; split; [reflexivity|apply Hcount]].
  exfalso. apply existsb_exists in E. destruct E as [j [Hj Heq]].
  apply N.eqb_eq in Heq. subst j. apply Hfresh.
  apply in_map_iff in Hj. destruct Hj as [m [Hm Hin]].
  apply filter_In in Hin. apply in_map_iff. exists m. tauto.
Qed.

Lemma markAllAsRead_misses_new_arrival_witness :
  unreadCount
    (markAllAsRead
       [enhance 1%N 0 (rating_prompt Sample.alice Sample.order1)] false
       (receive 10 (enhance 2%N 5 (rating_prompt Sample.alice Sample.order1))
          [enhance 1%N 0 (rating_prompt Sample.alice Sample.order1)]))
  = 1%nat.
Proof.
  destruct (markAllAsRead_misses_new_arrival 10
              (enhance 2%N 5 (rating_prompt Sample.alice Sample.order1))
              [enhance 1%N 0 (rating_prompt Sample.alice Sample.order1)]
              ltac:(lia) eq_refl eq_refl) as [rest [H _]].
  rewrite H. vm_compute in H. injection H as <-. reflexivity.
Defined.

(* ------------------------------------------------------------------ *)
(** ** The owner's sorted list *)

Lemma insert_notification_perm (x : Client.row) (l : list Client.row) :
  Permutation (x :: l) (insert_notification x l).
Proof.
  induction l as [|y l IH]; cbn [insert_notification]; [reflexivity|].
  destruct (compare_notifications x y <=? 0); [reflexivity|].
  rewrite perm_swap. now constructor.
Qed.

Lemma sortedNotifications_perm (l : list Client.row) :
  Permutation l (sortedNotifications l).
Proof.
  induction l as [|x l IH]; cbn [sortedNotifications fold_right]; [constructor|].
  fold (sortedNotifications l).
  rewrite <- insert_notification_perm. now constructor.
Qed.

Lemma is_unread_status (n : Client.row) :
  is_unread n = true <-> Client.status n = "unread".
Proof. unfold is_unread. apply String.eqb_eq. Qed.

Lemma comparator_decides (a b : Client.row) :
  binary_status a -> binary_status b ->
  ((compare_notifications a b <=? 0) = true -> comes_before a b)
  /\ ((compare_notifications a b <=? 0) = false -> comes_before b a).
Proof.
  unfold compare_notifications, comes_before. intros Ha Hb.
  rewrite !is_unread_status.
  destruct (String.eqb_spec (Client.status a) (Client.status b)) as [E|E];
    cbn [negb].
  - split; intros H.
    + apply Z.leb_le in H. split; [congruence|]. intros _. lia.
    + apply Z.leb_gt in H. split; [congruence|]. intros _. lia.
  - destruct (String.eqb_spec (Client.status a) "unread") as [Eu|Eu].
    + split; [|discriminate]. intros _. split; [tauto|]. intros H. now elim E.
    + split; [discriminate|]. intros _. split.
      * intros _. destruct Hb as [Hb|Hb]; [exact Hb|].
        destruct Ha as [Ha|Ha]; [now elim Eu|]. exfalso. apply E. congruence.
      * intros H. exfalso. apply E. congruence.
Qed.

Lemma comes_before_trans (a b c : Client.row) :
  binary_status a -> binary_status b -> binary_status c ->
  comes_before a b -> comes_before b c -> comes_before a c.
Proof.
  unfold comes_before, binary_status. rewrite !is_unread_status.
  intros Ha Hb Hc [H1 H2] [H3 H4]. split; [tauto|]. intros E.
  destruct Hb as [Hb|Hb].
  - assert (Ea : Client.status a = "unread") by tauto.
    assert (Ec : Client.status c = "unread") by congruence.
    assert (Client.created_at b <= Client.created_at a) by (apply H2; congruence).
    assert (Client.created_at c <= Client.created_at b) by (apply H4; congruence).
    lia.
  - destruct Hc as [Hc|Hc].
    + exfalso. specialize (H3 Hc). rewrite Hb in H3. discriminate.
    + assert (Ea : Client.status a = "read") by congruence.
      assert (Client.created_at b <= Client.created_at a) by (apply H2; congruence).
      assert (Client.created_at c <= Client.created_at b) by (apply H4; congruence).
      lia.
Qed.

Lemma insert_notification_sorted (x : Client.row) (l : list Client.row) :
  binary_status x -> Forall binary_status l ->
  StronglySorted comes_before l ->
  StronglySorted comes_before (insert_notification x l).
Proof.
  intros Hx Hl Hs. induction l as [|y l IH]; cbn [insert_notification].
  - constructor; constructor.
  - apply Forall_cons_iff in Hl. destruct Hl as [Hy Hl].
    apply StronglySorted_inv in Hs. destruct Hs as [Hs Hall].
    destruct (comparator_decides x y Hx Hy) as [Hle Hgt].
    destruct (compare_notifications x y <=? 0).
    + specialize (Hle eq_refl). constructor; [now constructor|].
      constructor; [exact Hle|].
      rewrite Forall_forall in *. intros z Hz.
      apply (comes_before_trans x y z); auto.
    + specialize (Hgt eq_refl). constructor; [now apply IH|].
      rewrite Forall_forall in *. intros z Hz.
      apply (Permutation_in z (Permutation_sym (insert_notification_perm x l)))
        in Hz.
      destruct Hz as [<-|Hz]; auto.
Qed.

(** The list the owner's hook returns holds the same notifications as
    the state, every unread one ahead of every read one and, within a
    status, the newest first. *)
Theorem sortedNotifications_ordered (notifications : list Client.row) :
  Forall binary_status notifications ->
  Permutation notifications (sortedNotifications notifications)
  /\ StronglySorted comes_before (sortedNotifications notifications)
  /\ unreadCount (sortedNotifications notifications) = unreadCount notifications.
Proof.
  intros Hall. split; [apply sortedNotifications_perm|]. split.
  - induction notifications as [|x l IH];
      cbn [sortedNotifications fold_right]; [constructor|].
    fold (sortedNotifications l).
    apply Forall_cons_iff in Hall. destruct Hall as [Hx Hl].
    apply insert_notification_sorted; [exact Hx| |now apply IH].
    rewrite Forall_forall in *. intros z Hz. apply Hl.
    now apply (Permutation_in z (Permutation_sym (sortedNotifications_perm l))).
  - unfold unreadCount. apply Permutation_length.
    (* filtering commutes with rearranging *)
    assert (P : forall l l' : list Client.row,
               Permutation l l' ->
               Permutation (filter is_unread l) (filter is_unread l')).
    { induction 1 as [|x l l' _ IH|x y l|l l' l'' _ IH1 _ IH2]; cbn [filter].
      - constructor.
      - destruct (is_unread x); [now constructor|exact IH].
      - destruct (is_unread x), (is_unread y);
          try reflexivity. apply perm_swap.
      - now transitivity (filter is_unread l'). }
    apply P. apply Permutation_sym. apply sortedNotifications_perm.
Qed.

Lemma sortedNotifications_ordered_witness :
  sortedNotifications
    [Client.mk 1%N None "t" "m" "read" 50 false None;
     Client.mk 2%N None "t" "m" "unread" 10 false None;
     Client.mk 3%N None "t" "m" "unread" 20 false None]
  = [Client.mk 3%N None "t" "m" "unread" 20 false None;
     Client.mk 2%N None "t" "m" "unread" 10 false None;
     Client.mk 1%N None "t" "m" "read" 50 false None]
  /\ StronglySorted comes_before
       (sortedNotifications
          [Client.mk 1%N None "t" "m" "read" 50 false None;
           Client.mk 2%N None "t" "m" "unread" 10 false None;
           Client.mk 3%N None "t" "m" "unread" 20 false None]).
Proof.
  split; [reflexivity|].
  apply (sortedNotifications_ordered
           [Client.mk 1%N None "t" "m" "read" 50 false None;
            Client.mk 2%N None "t" "m" "unread" 10 false None;
            Client.mk 3%N None "t" "m" "unread" 20 false None]).
  repeat constructor; (now right) || (now left).
Defined.

(* ------------------------------------------------------------------ *)
(** ** Profiles *)

Lemma has_profile_app (uid : uuid) (a b : list ProfileRecord.row) :
  has_profile uid (a ++ b) = has_profile uid a || has_profile uid b.
Proof. unfold has_profile. apply existsb_app. Qed.

Lemma has_profile_in (uid : uuid) (ps : list ProfileRecord.row) :
  has_profile uid ps = true <-> In uid (map ProfileRecord.id ps).
Proof.
  unfold has_profile. rewrite existsb_exists, in_map_iff. unfold uuid_eqb.
  split; intros [p [H1 H2]]; exists p.
  - apply N.eqb_eq in H2. tauto.
  - split; [tauto|]. now apply N.eqb_eq.
Qed.

Lemma insert_profile_or_nothing_spec (p : ProfileRecord.row)
  (ps : list ProfileRecord.row) :
  (exists added, insert_profile_or_nothing p ps = (ps ++ added)%list)
  /\ has_profile (ProfileRecord.id p) (insert_profile_or_nothing p ps) = true
  /\ (NoDup (map ProfileRecord.id ps) ->
      NoDup (map ProfileRecord.id (insert_profile_or_nothing p ps))).
Proof.
  unfold insert_profile_or_nothing.
  destruct (has_profile (ProfileRecord.id p) ps) eqn:E.
  - split; [exists []; now rewrite app_nil_r|]. split; [exact E|tauto].
  - split; [now exists [p]|]. split.
    + rewrite has_profile_app. cbn. unfold uuid_eqb. rewrite N.eqb_refl.
      now rewrite orb_true_r.
    + intros Hnd. rewrite map_app. cbn [map]. apply NoDup_snoc; [exact Hnd|].
      intros Hin. apply has_profile_in in Hin. congruence.
Qed.

Lemma populate_loop_spec (us : list SignUp.row) (acc : list ProfileRecord.row) :
  let result :=
    fold_left (fun a u => insert_profile_or_nothing (profile_of u) a) us acc in
  (exists added, result = (acc ++ added)%list)
  /\ (forall uid, has_profile uid acc = true -> has_profile uid result = true)
  /\ (forall u, In u us -> has_profile (SignUp.id u) result = true)
  /\ (NoDup (map ProfileRecord.id acc) -> NoDup (map ProfileRecord.id result)).
Proof.
  revert acc. induction us as [|u us IH]; intros acc; cbv zeta; cbn [fold_left].
  - split; [exists []; now rewrite app_nil_r|]. split; [tauto|].
    split; [intros u []|tauto].
  - destruct (insert_profile_or_nothing_spec (profile_of u) acc)
      as [[a1 Ha1] [Hhas Hnd]].
    destruct (IH (insert_profile_or_nothing (profile_of u) acc))
      as [[a2 Ha2] [Hmono [Hall Hnd2]]].
    cbv zeta in *. split; [|split; [|split]].
    + exists (a1 ++ a2)%list. rewrite Ha2, Ha1. now rewrite app_assoc.
    + intros uid Huid. apply Hmono. rewrite Ha1, has_profile_app, Huid.
      reflexivity.
    + intros v [<-|Hv]; [|now apply Hall]. apply Hmono. exact Hhas.
    + intros H. apply Hnd2. now apply Hnd.
Qed.

(** [populate_profiles_from_auth] leaves the profiles that exist as
    they are and in place, gives every user a profile, keeps the
    profile identifiers distinct, and run a second time does nothing. *)
Theorem populate_profiles_completes (us : list SignUp.row)
  (ps : list ProfileRecord.row) :
  (exists added, populate_profiles_from_auth us ps = (ps ++ added)%list)
  /\ (forall u, In u us ->
                has_profile (SignUp.id u) (populate_profiles_from_auth us ps)
                = true)
  /\ (NoDup (map ProfileRecord.id ps) ->
      NoDup (map ProfileRecord.id (populate_profiles_from_auth us ps)))
  /\ populate_profiles_from_auth us (populate_profiles_from_auth us ps)
     = populate_profiles_from_auth us ps.
Proof.
  assert (Hall : forall u, In u us ->
                   has_profile (SignUp.id u) (populate_profiles_from_auth us ps)
                   = true).
  { intros u Hu. unfold populate_profiles_from_auth. fold profile_of.
    destruct (populate_loop_spec
                (filter (fun u => negb (has_profile (SignUp.id u) ps)) us) ps)
      as [_ [Hmono [Hin _]]]. cbv zeta in *.
    destruct (has_profile (SignUp.id u) ps) eqn:E.
    - now apply Hmono.
    - apply Hin. apply filter_In. split; [exact Hu|]. now rewrite E. }
  split; [|split; [exact Hall|split]].
  - unfold populate_profiles_from_auth.
    apply (populate_loop_spec
             (filter (fun u => negb (has_profile (SignUp.id u) ps)) us) ps).
  - unfold populate_profiles_from_auth.
    apply (populate_loop_spec
             (filter (fun u => negb (has_profile (SignUp.id u) ps)) us) ps).
  - unfold populate_profiles_from_auth at 1.
    replace (filter
               (fun u => negb (has_profile (SignUp.id u)
                                 (populate_profiles_from_auth us ps))) us)
      with (@nil SignUp.row); [reflexivity|].
    symmetry. induction us as [|u us' IH]; [reflexivity|].
    cbn [filter]. rewrite (Hall u (or_introl eq_refl)). cbn [negb].
    clear IH.
    assert (G : forall l, (forall v, In v l -> In v (u :: us')) ->
                filter (fun w => negb (has_profile (SignUp.id w)
                                         (populate_profiles_from_auth (u :: us') ps)))
                  l = []).
    { induction l as [|v l IHl]; intros Hsub; [reflexivity|].
      cbn [filter]. rewrite (Hall v (Hsub v (or_introl eq_refl))). cbn [negb].
      apply IHl. intros w Hw. apply Hsub. now right. }
    apply G. intros v Hv. now right.
Qed.

Lemma populate_profiles_completes_witness :
  NoDup
    (map ProfileRecord.id
       (populate_profiles_from_auth
          [SignUp.mk 5%N (Some "alice@example.org") [("name", "Alice")];
           SignUp.mk 6%N None []]
          [ProfileRecord.mk 5%N None None])).
Proof.
  apply (proj1 (proj2 (proj2 (populate_profiles_completes
                                [SignUp.mk 5%N (Some "alice@example.org")
                                   [("name", "Alice")];
                                 SignUp.mk 6%N None []]
                                [ProfileRecord.mk 5%N None None])))).
  constructor; [intros []|constructor].
Defined.

Lemma coalesce_all_again {A : Type} (a b c d : option A) :
  coalesce_all [a; b; c; coalesce_all [a; b; c; d]] = coalesce_all [a; b; c; d].
Proof. destruct a, b, c, d; reflexivity. Qed.

Lemma coalesce_pair_again {A : Type} (a b : option A) :
  coalesce_all [a; coalesce_all [a; b]] = coalesce_all [a; b].
Proof. destruct a, b; reflexivity. Qed.

(** The forced update of the profiles changes no identifier, leaves a
    profile with a name and an e-mail address as it is, gives the same
    table when run again, and replaces a name that was there when only
    the address was missing and the sign-up data has a name. *)
Theorem force_update_profiles_spec (us : list SignUp.row)
  (ps : list ProfileRecord.row) :
  map ProfileRecord.id (force_update_profiles us ps) = map ProfileRecord.id ps
  /\ force_update_profiles us (force_update_profiles us ps)
     = force_update_profiles us ps
  /\ (forall p, In p ps -> profile_incomplete p = false ->
                In p (force_update_profiles us ps))
  /\ (forall p u old new,
        In p ps ->
        find (fun u => uuid_eqb (ProfileRecord.id p) (SignUp.id u)) us = Some u ->
        ProfileRecord.full_name p = Some old ->
        ProfileRecord.email p = None ->
        sign_up_name u = Some new ->
        In (ProfileRecord.mk (ProfileRecord.id p) (Some new) (SignUp.email u))
          (force_update_profiles us ps)).
Proof.
  unfold force_update_profiles. split; [|split; [|split]].
  - rewrite map_map. apply map_ext. intros p.
    destruct (find _ us); [|reflexivity].
    destruct (profile_incomplete p); reflexivity.
  - rewrite map_map. apply map_ext. intros p.
    destruct (find (fun u => uuid_eqb (ProfileRecord.id p) (SignUp.id u)) us)
      as [u|] eqn:E; [|now rewrite E].
    destruct (profile_incomplete p) eqn:Ei.
    + cbn [ProfileRecord.id]. rewrite E.
      match goal with
      | |- (if profile_incomplete ?q then _ else _) = _ =>
          destruct (profile_incomplete q); [|reflexivity]
      end.
      cbn [ProfileRecord.id ProfileRecord.full_name ProfileRecord.email].
      now rewrite coalesce_all_again, coalesce_pair_again.
    + now rewrite E, Ei.
  - intros p Hp Hc. apply in_map_iff. exists p. split; [|exact Hp].
    destruct (find _ us); [|reflexivity]. now rewrite Hc.
  - intros p u old new Hp Hu Hn He Hs. apply in_map_iff. exists p.
    split; [|exact Hp]. rewrite Hu.
    unfold profile_incomplete. rewrite Hn, He, orb_true_r.
    f_equal.
    + unfold sign_up_name in Hs. cbn [coalesce_all] in *.
      destruct (json_text (SignUp.raw_user_meta_data u) "full_name");
        [exact Hs|].
      destruct (json_text (SignUp.raw_user_meta_data u) "name"); [exact Hs|].
      destruct (option_map split_part_at_1 (SignUp.email u)); [exact Hs|].
      discriminate.
    + cbn [coalesce_all]. destruct (SignUp.email u); reflexivity.
Qed.

Lemma force_update_profiles_spec_witness :
  In (ProfileRecord.mk 5%N (Some "Alice") (Some "alice@example.org"))
    (force_update_profiles
       [SignUp.mk 5%N (Some "alice@example.org") [("name", "Alice")]]
       [ProfileRecord.mk 5%N (Some "Ally") None]).
Proof.
  apply (proj2 (proj2 (proj2 (force_update_profiles_spec
                                [SignUp.mk 5%N (Some "alice@example.org")
                                   [("name", "Alice")]]
                                [ProfileRecord.mk 5%N (Some "Ally") None])))
           (ProfileRecord.mk 5%N (Some "Ally") None)
           (SignUp.mk 5%N (Some "alice@example.org") [("name", "Alice")])
           "Ally" "Alice" (or_introl eq_refl) eq_refl eq_refl eq_refl eq_refl).
Defined.

Lemma profile_of_id (u : SignUp.row) :
  ProfileRecord.id (profile_of u) = SignUp.id u.
Proof. reflexivity. Qed.

(** The sign-up trigger writes a profile once: on an identifier that
    has a profile it changes nothing, so firing it again is harmless;
    the backfill loop run for one user does the same; and a user who
    signs up with no name in the metadata and the address local@domain
    gets the profile name local. *)
Theorem handle_new_user_once (NEW : SignUp.row) (ps : list ProfileRecord.row) :
  (has_profile (SignUp.id NEW) ps = true -> handle_new_user NEW ps = ps)
  /\ handle_new_user NEW (handle_new_user NEW ps) = handle_new_user NEW ps
  /\ populate_profiles_from_auth [NEW] ps = handle_new_user NEW ps
  /\ (forall local domain,
        has_profile (SignUp.id NEW) ps = false ->
        json_text (SignUp.raw_user_meta_data NEW) "full_name" = None ->
        json_text (SignUp.raw_user_meta_data NEW) "name" = None ->
        SignUp.email NEW = Some (local ++ String "@" domain) ->
        no_at_sign local = true ->
        handle_new_user NEW ps
        = (ps ++ [ProfileRecord.mk (SignUp.id NEW) (Some local)
                    (Some (local ++ String "@" domain)%string)])%list).
Proof.
  unfold handle_new_user. fold (profile_of NEW). split; [|split; [|split]].
  - intros H. unfold insert_profile_or_nothing. now rewrite profile_of_id, H.
  - destruct (insert_profile_or_nothing_spec (profile_of NEW) ps)
      as [_ [Hhas _]].
    unfold insert_profile_or_nothing at 1. now rewrite Hhas.
  - unfold populate_profiles_from_auth. fold (profile_of NEW). cbn [filter].
    unfold insert_profile_or_nothing. rewrite profile_of_id.
    destruct (has_profile (SignUp.id NEW) ps) eqn:E; cbn [negb fold_left].
    + reflexivity.
    + cbn [ProfileRecord.id]. rewrite E. reflexivity.
  - intros local domain Hnew Hf Hn He Hl.
    unfold insert_profile_or_nothing. rewrite profile_of_id, Hnew.
    unfold profile_of, sign_up_name. rewrite Hf, Hn, He.
    cbn [coalesce_all option_map]. now rewrite split_part_at_1_local.
Qed.

Lemma handle_new_user_once_witness :
  handle_new_user (SignUp.mk 5%N (Some "alice@example.org") []) []
  = [ProfileRecord.mk 5%N (Some "alice") (Some "alice@example.org")].
Proof.
  apply (proj2 (proj2 (proj2 (handle_new_user_once
                                (SignUp.mk 5%N (Some "alice@example.org") [])
                                [])))
           "alice" "example.org" eq_refl eq_refl eq_refl eq_refl eq_refl).
Defined.

(* ------------------------------------------------------------------ *)
(** ** From the sign-up data to the owner's notification *)

Lemma populate_loop_fresh (us : list SignUp.row) (acc : list ProfileRecord.row) :
  NoDup (map SignUp.id us) ->
  (forall u, In u us -> has_profile (SignUp.id u) acc = false) ->
  fold_left (fun a u => insert_profile_or_nothing (profile_of u) a) us acc
  = (acc ++ map profile_of us)%list.
Proof.
  revert acc. induction us as [|u us IH]; intros acc Hnd Hfresh;
    cbn [fold_left map].
  - now rewrite app_nil_r.
  - cbn [map] in Hnd. apply NoDup_cons_iff in Hnd. destruct Hnd as [Hu Hnd].
    unfold insert_profile_or_nothing at 2.
    rewrite profile_of_id, (Hfresh u (or_introl eq_refl)).
    rewrite IH; [now rewrite <- app_assoc|exact Hnd|].
    intros v Hv. rewrite has_profile_app, (Hfresh v (or_intror Hv)).
    cbn. unfold uuid_eqb. rewrite orb_false_r. apply N.eqb_neq.
    intros E. apply Hu. rewrite E. now apply in_map.
Qed.

Lemma populate_from_nothing (us : list SignUp.row) :
  NoDup (map SignUp.id us) ->
  populate_profiles_from_auth us [] = map profile_of us.
Proof.
  intros Hnd. unfold populate_profiles_from_auth.
  assert (F : filter (fun u => negb (has_profile (SignUp.id u) [])) us = us).
  { clear Hnd. induction us as [|u us IH]; [reflexivity|].
    cbn [filter]. change (has_profile (SignUp.id u) []) with false.
    cbn [negb]. now rewrite IH. }
  rewrite F. apply (populate_loop_fresh us [] Hnd). reflexivity.
Qed.

Lemma find_by_id {A B : Type} (key : A -> uuid) (keyB : B -> uuid) (f : A -> B)
  (l : list A) (a : A) :
  (forall x, keyB (f x) = key x) ->
  NoDup (map key l) -> In a l ->
  find (fun b => uuid_eqb (keyB b) (key a)) (map f l) = Some (f a).
Proof.
  intros Hkey. induction l as [|x l IH]; intros Hnd Hin; [destruct Hin|].
  cbn [map] in Hnd. apply NoDup_cons_iff in Hnd. destruct Hnd as [Hx Hnd].
  cbn [map find]. rewrite Hkey. unfold uuid_eqb.
  destruct Hin as [->|Hin].
  - now rewrite N.eqb_refl.
  - destruct (N.eqb_spec (key x) (key a)) as [E|E].
    + exfalso. apply Hx. rewrite E. now apply in_map.
    + now apply IH.
Qed.

Lemma display_name_sign_up (u : SignUp.row) :
  display_name (sign_up_name u) (SignUp.email u) = sign_up_name u.
Proof.
  unfold display_name, sign_up_name. cbn [coalesce_all].
  destruct (json_text (SignUp.raw_user_meta_data u) "full_name");
    [reflexivity|].
  destruct (json_text (SignUp.raw_user_meta_data u) "name"); [reflexivity|].
  destruct (option_map split_part_at_1 (SignUp.email u)); reflexivity.
Qed.

Lemma owner_notification_row (db db' : database) (NEW : BlogComment.row)
  (n : BlogCommentNotification.row) :
  handle_blog_comment_notification NEW db = Ok db' ->
  blog_comment_notifications db'
  = (blog_comment_notifications db ++ [n])%list ->
  BlogCommentNotification.message n
  = format_commented
      (coalesce (customer_display_name db (BlogComment.customer_id NEW))
         "A customer")
      (coalesce (title_of_post db (BlogComment.blog_post_id NEW)) "a blog post")
      (preview (BlogComment.content NEW)).
Proof.
  unfold handle_blog_comment_notification. intros H Hn.
  assert (Habs : blog_comment_notifications db
                 = (blog_comment_notifications db ++ [n])%list -> False).
  { intros E. apply (f_equal (@List.length _)) in E.
    rewrite length_app in E. cbn in E. lia. }
  destruct (BlogComment.parent_comment_id NEW).
  { injection H as <-. now elim Habs. }
  destruct (restaurant_of_post db (BlogComment.blog_post_id NEW)).
  2:{ injection H as <-. now elim Habs. }
  apply insert_blog_comment_notification_ok in H. destruct H as (_ & _ & ->).
  cbn in Hn. apply app_inv_head in Hn.
  injection Hn as <-. reflexivity.
Qed.

(** In a database whose profiles were all written by
    [populate_profiles_from_auth] from its users, the owner reads a
    commenter's name as the sign-up data gives it: the metadata's
    full_name, else its name, else the part of the address before the
    at sign, and the words A customer when there is none of them. *)
Theorem owner_reads_sign_up_name (db db' : database) (NEW : BlogComment.row)
  (n : BlogCommentNotification.row) (us : list SignUp.row) (u : SignUp.row) :
  users db = map to_user us ->
  profiles db = map to_profile (populate_profiles_from_auth us []) ->
  NoDup (map SignUp.id us) ->
  In u us ->
  BlogComment.customer_id NEW = SignUp.id u ->
  handle_blog_comment_notification NEW db = Ok db' ->
  blog_comment_notifications db'
  = (blog_comment_notifications db ++ [n])%list ->
  exists tail,
    BlogCommentNotification.message n
    = coalesce (sign_up_name u) "A customer"
        ++ " commented on your blog post " ++ tail.
Proof.
  intros Hus Hps Hnd Hu Hc H Hn.
  rewrite (owner_notification_row db db' NEW n H Hn).
  rewrite customer_display_name_find. unfold find_user, find_profile.
  rewrite Hus, Hps, Hc, populate_from_nothing by exact Hnd.
  rewrite (find_by_id SignUp.id AuthUser.id to_user us u) by (auto || exact Hnd).
  cbn [to_user AuthUser.id AuthUser.email].
  rewrite map_map.
  rewrite (find_by_id SignUp.id Profile.id (fun x => to_profile (profile_of x))
             us u) by (auto || exact Hnd).
  cbn [to_profile profile_of Profile.full_name ProfileRecord.full_name].
  rewrite display_name_sign_up. unfold format_commented.
  eexists. reflexivity.
Qed.

Lemma owner_reads_sign_up_name_witness :
  exists db' n,
    handle_blog_comment_notification Sample.root
      (mkDatabase (restaurants Sample.db0) (blog_posts Sample.db0)
         [Sample.root]
         [AuthUser.mk Sample.alice (Some "alice@example.org")]
         [Profile.mk Sample.alice (Some "Alice")] [] [] [])
    = Ok db'
    /\ blog_comment_notifications db' = [n]
    /\ exists tail,
         BlogCommentNotification.message n
         = "Alice commented on your blog post " ++ tail.
Proof.
  eexists. eexists. split; [reflexivity|]. split; [reflexivity|].
  apply (owner_reads_sign_up_name
           (mkDatabase (restaurants Sample.db0) (blog_posts Sample.db0)
         [Sample.root]
              [AuthUser.mk Sample.alice (Some "alice@example.org")]
              [Profile.mk Sample.alice (Some "Alice")] [] [] [])
           _ Sample.root _
           [SignUp.mk Sample.alice (Some "alice@example.org") [("name", "Alice")]]
           (SignUp.mk Sample.alice (Some "alice@example.org") [("name", "Alice")])
           eq_refl eq_refl
           ltac:(constructor; [intros []|constructor])
           (or_introl eq_refl) eq_refl eq_refl eq_refl).
Defined.

(* ------------------------------------------------------------------ *)
(** ** More on the rating aggregator *)

Lemma recalculate_on_valid_rows (rid : uuid) (db : database) :
  let rows := ratings_of rid (restaurant_ratings db) in
  Forall (fun x => 10 <= RestaurantRating.rating x <= 50) rows ->
  rows <> [] ->
  recalculate_restaurant_rating rid db
  = Ok (set_restaurants
          (update_restaurant_rating rid
             (mkDecimal
                (round_half_away
                   (round_half_away (sum_ratings rows * 100)
                      (10 * Z.of_nat (List.length rows)) * 10)
                   100)
                1)
             (restaurants db))
          db).
Proof.
  cbv zeta. intros Hrows Hne. unfold recalculate_restaurant_rating.
  apply sum_ratings_bounds in Hrows.
  destruct (ratings_of rid (restaurant_ratings db)) as [|x rows] eqn:Erows;
    [now elim Hne|].
  cbn [avg_rating]. set (l := x :: rows) in *.
  assert (Hn : 0 < Z.of_nat (List.length l)) by (cbn; lia).
  set (n := Z.of_nat (List.length l)) in *.
  set (s := sum_ratings l) in *.
  assert (Hh : 100 <= round_half_away (s * 100) (10 * n) <= 500)
    by (apply round_half_away_bounds; nia).
  set (h := round_half_away (s * 100) (10 * n)) in *.
  assert (Ht : 10 <= round_half_away (h * 10) 100 <= 50)
    by (apply round_half_away_bounds; lia).
  set (t := round_half_away (h * 10) 100) in *.
  unfold cast_numeric at 1.
  change (10 ^ Z.of_nat 2) with 100. change (10 ^ Z.of_nat 3) with 1000.
  fold h. destruct (Z.ltb_spec (Z.abs h) 1000) as [_|Habs]; [|lia].
  cbn [bind]. fold t. unfold cast_numeric.
  change (10 ^ Z.of_nat 1) with 10. change (10 ^ Z.of_nat 2) with 100.
  rewrite round_half_away_exact by lia.
  destruct (Z.ltb_spec (Z.abs t) 100) as [_|Habs]; [|lia].
  reflexivity.
Qed.

Lemma round_half_away_nonneg (a b : Z) :
  0 <= a -> round_half_away a b = (2 * a + b) / (2 * b).
Proof.
  intros Ha. unfold round_half_away.
  destruct (Z.ltb_spec a 0); [lia|reflexivity].
Qed.

(** Rounding to hundredths and then to tenths is never below rounding
    to tenths at once, and at most one tenth above. *)
Lemma twice_rounded_close (s n : Z) :
  0 <= s -> 0 < n ->
  round_half_away s n
  <= round_half_away (round_half_away (s * 100) (10 * n) * 10) 100
  <= round_half_away s n + 1.
Proof.
  intros Hs Hn.
  assert (Hh0 : 0 <= round_half_away (s * 100) (10 * n)).
  { rewrite round_half_away_nonneg by lia. apply Z.div_pos; lia. }
  set (h := round_half_away (s * 100) (10 * n)) in *.
  assert (Hh : 2 * (10 * n) * h <= 2 * (s * 100) + 10 * n
               < 2 * (10 * n) * (h + 1)).
  { subst h. rewrite round_half_away_nonneg by lia.
    pose proof (Z.mul_div_le (2 * (s * 100) + 10 * n) (2 * (10 * n))
                  ltac:(lia)).
    pose proof (Z.mul_succ_div_gt (2 * (s * 100) + 10 * n) (2 * (10 * n))
                  ltac:(lia)).
    lia. }
  rewrite (round_half_away_nonneg (h * 10)) by lia.
  rewrite (round_half_away_nonneg s) by lia.
  set (q := (2 * s + n) / (2 * n)).
  assert (Hq : 2 * n * q <= 2 * s + n < 2 * n * (q + 1)).
  { subst q.
    pose proof (Z.mul_div_le (2 * s + n) (2 * n) ltac:(lia)).
    pose proof (Z.mul_succ_div_gt (2 * s + n) (2 * n) ltac:(lia)).
    lia. }
  split.
  - apply Z.div_le_lower_bound; [lia|].
    (* 200 q <= 20 h + 100, i.e. 10 q <= h + 5 *)
    assert (10 * q - 5 <= h); [|lia].
    assert (Hlt : 2 * (10 * n) * (10 * q - 5) < 2 * (10 * n) * (h + 1)) by nia.
    apply Z.mul_lt_mono_pos_l in Hlt; lia.
  - apply Z.lt_succ_r. apply Z.div_lt_upper_bound; [lia|].
    (* 20 h + 100 < 200 (q + 2), i.e. h < 10 q + 15 *)
    assert (h < 10 * q + 15); [|lia].
    assert (Hlt : 2 * (10 * n) * h < 2 * (10 * n) * (10 * q + 15)) by nia.
    apply Z.mul_lt_mono_pos_l in Hlt; lia.
Qed.

Lemma valid_rows_sum (rows : list RestaurantRating.row) :
  Forall (fun x => 10 <= RestaurantRating.rating x <= 50) rows ->
  rows <> [] ->
  0 < Z.of_nat (List.length rows)
  /\ 10 * Z.of_nat (List.length rows) <= sum_ratings rows
     <= 50 * Z.of_nat (List.length rows).
Proof.
  intros H Hne. split; [destruct rows; [now elim Hne|cbn; lia]|].
  now apply sum_ratings_bounds.
Qed.

(** For a restaurant with rating rows that satisfy the CHECK, the
    recomputation succeeds and the rating it displays is a number of
    tenths between 1.0 and 5.0. *)
Theorem displayed_rating_in_range (rid : uuid) (db : database) :
  Forall (fun x => 10 <= RestaurantRating.rating x <= 50)
    (ratings_of rid (restaurant_ratings db)) ->
  ratings_of rid (restaurant_ratings db) <> [] ->
  find (fun r => uuid_eqb (Restaurant.id r) rid) (restaurants db) <> None ->
  exists db' tenths,
    recalculate_restaurant_rating rid db = Ok db'
    /\ rating_of_restaurant rid db' = Some (mkDecimal tenths 1)
    /\ 10 <= tenths <= 50.
Proof.
  intros Hrows Hne Hfind.
  rewrite (recalculate_on_valid_rows rid db Hrows Hne).
  destruct (valid_rows_sum _ Hrows Hne) as [Hn Hs].
  eexists. eexists. split; [reflexivity|].
  split; [now apply rating_of_restaurant_update_same|].
  apply round_half_away_bounds; [lia|lia|].
  assert (100 <= round_half_away
                   (sum_ratings (ratings_of rid (restaurant_ratings db)) * 100)
                   (10 * Z.of_nat
                           (List.length (ratings_of rid (restaurant_ratings db))))
          <= 500)
    by (apply round_half_away_bounds; nia).
  lia.
Qed.

Lemma displayed_rating_in_range_witness :
  exists db' tenths,
    recalculate_restaurant_rating Sample.bistro
      (run Sample.eleven_ratings Sample.db0) = Ok db'
    /\ rating_of_restaurant Sample.bistro db' = Some (mkDecimal tenths 1)
    /\ 10 <= tenths <= 50.
Proof.
  apply (displayed_rating_in_range Sample.bistro
           (run Sample.eleven_ratings Sample.db0)).
  - vm_compute.
    repeat (apply Forall_cons; [split; discriminate|]). apply Forall_nil.
  - vm_compute. discriminate.
  - vm_compute. discriminate.
Defined.

(** The rating the recomputation displays is never below the mean of
    the restaurant's ratings rounded to one decimal, and never more
    than one tenth above it. *)
Theorem displayed_rating_near_rounded_mean (rid : uuid) (db : database) :
  Forall (fun x => 10 <= RestaurantRating.rating x <= 50)
    (ratings_of rid (restaurant_ratings db)) ->
  ratings_of rid (restaurant_ratings db) <> [] ->
  find (fun r => uuid_eqb (Restaurant.id r) rid) (restaurants db) <> None ->
  exists db' tenths,
    recalculate_restaurant_rating rid db = Ok db'
    /\ rating_of_restaurant rid db' = Some (mkDecimal tenths 1)
    /\ spec_mean_one_decimal (ratings_of rid (restaurant_ratings db)) <= tenths
       <= spec_mean_one_decimal (ratings_of rid (restaurant_ratings db)) + 1.
Proof.
  intros Hrows Hne Hfind.
  rewrite (recalculate_on_valid_rows rid db Hrows Hne).
  destruct (valid_rows_sum _ Hrows Hne) as [Hn Hs].
  eexists. eexists. split; [reflexivity|].
  split; [now apply rating_of_restaurant_update_same|].
  unfold spec_mean_one_decimal. apply twice_rounded_close; lia.
Qed.

Lemma displayed_rating_near_rounded_mean_witness :
  exists db' tenths,
    recalculate_restaurant_rating Sample.bistro
      (run Sample.eleven_ratings Sample.db0) = Ok db'
    /\ rating_of_restaurant Sample.bistro db' = Some (mkDecimal tenths 1)
    /\ 30 <= tenths <= 31.
Proof.
  apply (displayed_rating_near_rounded_mean Sample.bistro
           (run Sample.eleven_ratings Sample.db0)).
  - vm_compute.
    repeat (apply Forall_cons; [split; discriminate|]). apply Forall_nil.
  - vm_compute. discriminate.
  - vm_compute. discriminate.
Defined.

Lemma sum_of_equal_ratings (r : Z) (rows : list RestaurantRating.row) :
  Forall (fun x => RestaurantRating.rating x = r) rows ->
  sum_ratings rows = r * Z.of_nat (List.length rows).
Proof.
  induction 1 as [|x l Hx _ IH]; cbn [sum_ratings fold_right List.length].
  - lia.
  - fold (sum_ratings l). lia.
Qed.

(** When all the ratings of a restaurant are the same value, and so
    when it has a single rating, that value is displayed as it is. *)
Theorem unanimous_rating_displayed (rid : uuid) (r : Z) (db : database) :
  Forall (fun x => RestaurantRating.rating x = r)
    (ratings_of rid (restaurant_ratings db)) ->
  ratings_of rid (restaurant_ratings db) <> [] ->
  10 <= r <= 50 ->
  find (fun x => uuid_eqb (Restaurant.id x) rid) (restaurants db) <> None ->
  exists db',
    recalculate_restaurant_rating rid db = Ok db'
    /\ rating_of_restaurant rid db' = Some (mkDecimal r 1).
Proof.
  intros Hall Hne Hr Hfind.
  assert (Hrows : Forall (fun x => 10 <= RestaurantRating.rating x <= 50)
                    (ratings_of rid (restaurant_ratings db))).
  { eapply Forall_impl; [|exact Hall]. cbn. intros x ->. exact Hr. }
  rewrite (recalculate_on_valid_rows rid db Hrows Hne).
  destruct (valid_rows_sum _ Hrows Hne) as [Hn _].
  eexists. split; [reflexivity|].
  rewrite rating_of_restaurant_update_same by exact Hfind.
  rewrite (sum_of_equal_ratings r _ Hall).
  replace (r * Z.of_nat (List.length (ratings_of rid (restaurant_ratings db)))
           * 100)
    with (10 * r
          * (10 * Z.of_nat (List.length (ratings_of rid (restaurant_ratings db)))))
    by lia.
  rewrite round_half_away_exact by lia.
  replace (10 * r * 10) with (r * 100) by lia.
  rewrite round_half_away_exact by lia. reflexivity.
Qed.

Lemma unanimous_rating_displayed_witness :
  exists db',
    recalculate_restaurant_rating Sample.bistro
      (run [Sample.rate 1 45] Sample.db0) = Ok db'
    /\ rating_of_restaurant Sample.bistro db' = Some (mkDecimal 45 1).
Proof.
  apply (unanimous_rating_displayed Sample.bistro 45
           (run [Sample.rate 1 45] Sample.db0)).
  - vm_compute. apply Forall_cons; [reflexivity|apply Forall_nil].
  - vm_compute. discriminate.
  - lia.
  - vm_compute. discriminate.
Defined.

Lemma update_restaurant_rating_twice (rid : uuid) (v : decimal)
  (l : list Restaurant.row) :
  update_restaurant_rating rid v (update_restaurant_rating rid v l)
  = update_restaurant_rating rid v l.
Proof.
  unfold update_restaurant_rating. rewrite map_map. apply map_ext.
  intros r. destruct (uuid_eqb (Restaurant.id r) rid) eqn:E.
  - cbn [Restaurant.id Restaurant.name]. now rewrite E.
  - now rewrite E.
Qed.

(** Recomputing a restaurant's rating a second time changes nothing. *)
Theorem recalculate_twice (rid : uuid) (db db' : database) :
  recalculate_restaurant_rating rid db = Ok db' ->
  recalculate_restaurant_rating rid db' = Ok db'.
Proof.
  unfold recalculate_restaurant_rating. intros H.
  destruct (avg_rating (ratings_of rid (restaurant_ratings db)))
    as [[num den]|] eqn:Eavg.
  - inv_bind H. inv_bind H. injection H as <-.
    cbn [restaurant_ratings set_restaurants]. rewrite Eavg, E. cbn [bind].
    rewrite E0. cbn [bind]. cbn [restaurants set_restaurants].
    rewrite update_restaurant_rating_twice. reflexivity.
  - injection H as <-. now rewrite Eavg.
Qed.

Lemma recalculate_twice_witness :
  recalculate_restaurant_rating Sample.bistro
    (run Sample.eleven_ratings Sample.db0)
  = Ok (run Sample.eleven_ratings Sample.db0).
Proof.
  apply (recalculate_twice Sample.bistro (run Sample.eleven_ratings Sample.db0)).
  reflexivity.
Defined.

(* ------------------------------------------------------------------ *)
(** ** What the rating statements leave alone *)

Lemma same_outside_ratings_refl (db : database) : same_outside_ratings db db.
Proof. repeat split. Qed.

Lemma same_outside_ratings_trans (a b c : database) :
  same_outside_ratings a b -> same_outside_ratings b c ->
  same_outside_ratings a c.
Proof.
  unfold same_outside_ratings. intros H1 H2.
  destruct H1 as (A1 & A2 & A3 & A4 & A5 & A6 & A7 & A8).
  destruct H2 as (B1 & B2 & B3 & B4 & B5 & B6 & B7 & B8).
  repeat split; congruence.
Qed.

Lemma recalculate_outside (rid : uuid) (db db' : database) :
  recalculate_restaurant_rating rid db = Ok db' -> same_outside_ratings db db'.
Proof.
  unfold recalculate_restaurant_rating. intros H.
  destruct (avg_rating _) as [[num den]|].
  - inv_bind H. inv_bind H. injection H as <-.
    unfold same_outside_ratings, update_restaurant_rating. cbn.
    rewrite !map_map. repeat split; apply map_ext; intros r;
      destruct (uuid_eqb (Restaurant.id r) rid); reflexivity.
  - injection H as <-. apply same_outside_ratings_refl.
Qed.

Lemma handle_restaurant_rating_change_outside
  (ev : trigger_event RestaurantRating.row) (db db' : database) :
  handle_restaurant_rating_change ev db = Ok db' -> same_outside_ratings db db'.
Proof.
  destruct ev as [NEW|OLD NEW|OLD]; cbn [handle_restaurant_rating_change];
    intros H; try (now apply recalculate_outside in H).
  inv_bind H. apply recalculate_outside in H.
  destruct (negb _).
  - apply recalculate_outside in E.
    now apply (same_outside_ratings_trans db a db').
  - injection E as ->. exact H.
Qed.

Lemma fire_rating_triggers_outside
  (evs : list (trigger_event RestaurantRating.row)) (db db' : database) :
  fire_rating_triggers evs db = Ok db' -> same_outside_ratings db db'.
Proof.
  revert db. induction evs as [|ev evs IH]; intros db H;
    cbn [fire_rating_triggers] in H.
  - injection H as <-. apply same_outside_ratings_refl.
  - inv_bind H. apply handle_restaurant_rating_change_outside in E.
    apply IH in H. now apply (same_outside_ratings_trans db a db').
Qed.

(** A statement on the ratings, whether it goes through or is refused,
    adds, drops and renames no restaurant and touches no post, comment,
    user, profile or notification. *)
Theorem rating_statements_leave_the_rest (st : statement) (db : database) :
  same_outside_ratings db (step st db).
Proof.
  unfold step. destruct (exec st db) as [db'|e] eqn:H;
    [|apply same_outside_ratings_refl].
  assert (G : forall l d,
             same_outside_ratings (set_restaurant_ratings l db) d ->
             same_outside_ratings db d).
  { intros l d. apply same_outside_ratings_trans. repeat split. }
  destruct st as [rid r c o v|rid r c o v|rid|o]; cbn [exec] in H.
  - inv_bind H. apply handle_restaurant_rating_change_outside in H.
    now apply G in H.
  - destruct (find_rating rid (restaurant_ratings db)) as [OLD|].
    + inv_bind H. apply handle_restaurant_rating_change_outside in H.
      now apply G in H.
    + injection H as <-. apply same_outside_ratings_refl.
  - destruct (find_rating rid (restaurant_ratings db)) as [OLD|].
    + apply handle_restaurant_rating_change_outside in H. now apply G in H.
    + injection H as <-. apply same_outside_ratings_refl.
  - apply fire_rating_triggers_outside in H. now apply G in H.
Qed.

(* ------------------------------------------------------------------ *)
(** ** More on the rating prompt *)

Lemma sql_in_terminal (s : option string) :
  sql_in s ["completed"; "served"] = true
  <-> In s [Some "completed"; Some "served"].
Proof.
  destruct s as [s|]; cbn [sql_in existsb In].
  - rewrite orb_false_r, orb_true_iff, !String.eqb_eq.
    split; intros [H|H].
    + left. now subst.
    + right. left. now subst.
    + left. now injection H.
    + destruct H as [H|[]]. right. now injection H.
  - split; [discriminate|]. intros [H|[H|[]]]; discriminate.
Qed.

Lemma is_distinct_from_neq (a b : option string) :
  is_distinct_from a b = true <-> a <> b.
Proof.
  destruct a as [a|], b as [b|]; cbn [is_distinct_from].
  - rewrite negb_true_iff, String.eqb_neq. split; congruence.
  - split; [discriminate|reflexivity].
  - split; [discriminate|reflexivity].
  - split; [discriminate|]. intros H. now elim H.
Qed.

Lemma prompt_fires (db : database) (OLD NEW : Order.row) (c r : uuid) :
  Order.customer_id NEW = Some c ->
  Order.restaurant_id NEW = Some r ->
  In (Order.status NEW) [Some "completed"; Some "served"] ->
  Order.status OLD <> Order.status NEW ->
  existing_rating_id db r c (Order.id NEW) = None ->
  handle_order_status_rating_prompt (UPDATE OLD NEW) db
  = set_customer_notifications
      (customer_notifications db ++ [rating_prompt c (Order.id NEW)]) db.
Proof.
  intros Hc Hr Hs Hd He. cbn [handle_order_status_rating_prompt].
  apply sql_in_terminal in Hs. apply is_distinct_from_neq in Hd.
  now rewrite Hc, Hr, Hs, Hd, He.
Qed.

(** The prompt is sent at every change into completed or served, not
    once for an order: an order that goes to one of the two and then to
    the other, unrated, leaves its customer two prompts. *)
Theorem prompt_at_every_transition (db : database) (O1 O2 O3 : Order.row)
  (c r : uuid) :
  Order.id O2 = Order.id O3 ->
  Order.customer_id O2 = Some c -> Order.customer_id O3 = Some c ->
  Order.restaurant_id O2 = Some r -> Order.restaurant_id O3 = Some r ->
  In (Order.status O2) [Some "completed"; Some "served"] ->
  In (Order.status O3) [Some "completed"; Some "served"] ->
  Order.status O1 <> Order.status O2 ->
  Order.status O2 <> Order.status O3 ->
  existing_rating_id db r c (Order.id O3) = None ->
  customer_notifications
    (handle_order_status_rating_prompt (UPDATE O2 O3)
       (handle_order_status_rating_prompt (UPDATE O1 O2) db))
  = (customer_notifications db
       ++ [rating_prompt c (Order.id O3); rating_prompt c (Order.id O3)])%list.
Proof.
  intros Hid Hc2 Hc3 Hr2 Hr3 Hs2 Hs3 Hd12 Hd23 He.
  rewrite (prompt_fires db O1 O2 c r) by (assumption || now rewrite Hid).
  rewrite (prompt_fires _ O2 O3 c r) by assumption.
  cbn. rewrite Hid, <- app_assoc. reflexivity.
Qed.

Lemma prompt_at_every_transition_witness :
  customer_notifications
    (handle_order_status_rating_prompt
       (UPDATE Sample.completed_order
          (Order.mk Sample.order1 (Some Sample.alice) (Some Sample.bistro)
             (Some "served")))
       (handle_order_status_rating_prompt
          (UPDATE Sample.paid_order Sample.completed_order) Sample.db0))
  = [rating_prompt Sample.alice Sample.order1;
     rating_prompt Sample.alice Sample.order1].
Proof.
  apply (prompt_at_every_transition Sample.db0 Sample.paid_order
           Sample.completed_order
           (Order.mk Sample.order1 (Some Sample.alice) (Some Sample.bistro)
              (Some "served"))
           Sample.alice Sample.bistro eq_refl eq_refl eq_refl eq_refl eq_refl).
  - left. reflexivity.
  - right. left. reflexivity.
  - discriminate.
  - discriminate.
  - reflexivity.
Defined.

(** The prompt trigger writes to the customer notifications only, adds
    at most one row, and does nothing on an insert or a delete of an
    order. *)
Theorem rating_prompt_footprint (ev : trigger_event Order.row) (db : database) :
  set_customer_notifications (customer_notifications db)
    (handle_order_status_rating_prompt ev db) = db
  /\ (customer_notifications (handle_order_status_rating_prompt ev db)
      = customer_notifications db
      \/ exists r,
           customer_notifications (handle_order_status_rating_prompt ev db)
           = (customer_notifications db ++ [r])%list)
  /\ match ev with
     | UPDATE _ _ => True
     | _ => handle_order_status_rating_prompt ev db = db
     end.
Proof.
  destruct db. destruct ev as [NEW|OLD NEW|OLD];
    cbn [handle_order_status_rating_prompt]; try (repeat split; now left).
  destruct (Order.customer_id NEW); [|repeat split; now left].
  destruct (Order.restaurant_id NEW); [|repeat split; now left].
  destruct (_ && _); [|repeat split; now left].
  destruct (existing_rating_id _ _ _ _); [repeat split; now left|].
  split; [reflexivity|]. split; [|exact I]. right. eexists. reflexivity.
Qed.

Lemma no_prompt_with_rating (db : database) (OLD NEW : Order.row)
  (x : RestaurantRating.row) :
  In x (restaurant_ratings db) ->
  Order.customer_id NEW = Some (RestaurantRating.customer_id x) ->
  Order.restaurant_id NEW = Some (RestaurantRating.restaurant_id x) ->
  RestaurantRating.order_id x = Some (Order.id NEW) ->
  handle_order_status_rating_prompt (UPDATE OLD NEW) db = db.
Proof.
  intros Hin Hc Hr Ho. cbn [handle_order_status_rating_prompt].
  rewrite Hc, Hr. destruct (_ && _); [|reflexivity].
  destruct (existing_rating_id db (RestaurantRating.restaurant_id x)
              (RestaurantRating.customer_id x) (Order.id NEW)) eqn:Ex;
    [reflexivity|].
  exfalso. apply existing_rating_id_none in Ex.
  assert (Hx : In x (rows_of_triple (RestaurantRating.restaurant_id x)
                       (RestaurantRating.customer_id x)
                       (Some (Order.id NEW)) (restaurant_ratings db))).
  { unfold rows_of_triple. apply filter_In. split; [exact Hin|].
    rewrite Ho. unfold uuid_eqb. now rewrite !N.eqb_refl. }
  rewrite Ex in Hx. destruct Hx.
Qed.

Lemma step_keeps_rating (st : statement) (db : database)
  (x : RestaurantRating.row) (o : uuid) :
  RestaurantRating.order_id x = Some o ->
  leaves_rating (RestaurantRating.id x) o st = true ->
  In x (restaurant_ratings db) ->
  In x (restaurant_ratings (step st db)).
Proof.
  intros Ho Hl Hin. unfold step.
  destruct (exec st db) as [db'|e] eqn:H; [|exact Hin].
  destruct st as [rid r c o' v|rid r c o' v|rid|o']; cbn [exec] in H;
    cbn [leaves_rating] in Hl; try apply negb_true_iff in Hl.
  - inv_bind H. apply handle_restaurant_rating_change_frame in H.
    destruct H as [H _]. rewrite H. cbn. apply in_or_app. now left.
  - destruct (find_rating rid (restaurant_ratings db)).
    + inv_bind H. apply handle_restaurant_rating_change_frame in H.
      destruct H as [H _]. rewrite H. cbn. unfold replace_rating.
      apply in_map_iff. exists x. now rewrite Hl.
    + injection H as <-. exact Hin.
  - destruct (find_rating rid (restaurant_ratings db)).
    + apply handle_restaurant_rating_change_frame in H.
      destruct H as [H _]. rewrite H. cbn. unfold rows_except.
      apply filter_In. now rewrite Hl.
    + injection H as <-. exact Hin.
  - apply fire_rating_triggers_frame in H. destruct H as [H _].
    rewrite H. cbn. apply in_map_iff. exists x. split; [|exact Hin].
    unfold clear_order. rewrite Ho. cbn [sql_eq]. now rewrite Hl.
Qed.

Lemma run_keeps_rating (sts : list statement) (db : database)
  (x : RestaurantRating.row) (o : uuid) :
  RestaurantRating.order_id x = Some o ->
  forallb (leaves_rating (RestaurantRating.id x) o) sts = true ->
  In x (restaurant_ratings db) ->
  In x (restaurant_ratings (run sts db)).
Proof.
  intros Ho. revert db. unfold run.
  induction sts as [|st sts IH]; intros db Hl Hin; cbn [fold_left].
  - exact Hin.
  - cbn [forallb] in Hl. apply andb_true_iff in Hl. destruct Hl as [Hst Hl].
    apply IH; [exact Hl|]. now apply (step_keeps_rating st db x o).
Qed.

(** Once the customer has rated an order, no change of that order's
    status prompts for a rating again, in the database the rating's
    insert returns and after any later statements on the ratings that
    leave that rating and that order alone. *)
Theorem no_prompt_once_rated (db db' : database) (rid r c o : uuid)
  (v : decimal) (sts : list statement) (OLD NEW : Order.row) :
  exec (InsertRating rid r c (Some o) v) db = Ok db' ->
  forallb (leaves_rating rid o) sts = true ->
  Order.id NEW = o ->
  Order.customer_id NEW = Some c ->
  Order.restaurant_id NEW = Some r ->
  handle_order_status_rating_prompt (UPDATE OLD NEW) (run sts db')
  = run sts db'.
Proof.
  intros H Hsts Hid Hc Hr. cbn [exec] in H. inv_bind H.
  apply check_rating_row_ok in E.
  destruct E as (E1 & E2 & E3 & E4 & _).
  apply handle_restaurant_rating_change_frame in H. destruct H as [H _].
  cbn [restaurant_ratings set_restaurant_ratings] in H.
  apply (no_prompt_with_rating _ OLD NEW a).
  - apply (run_keeps_rating sts db' a o); [exact E4|now rewrite E1|].
    rewrite H. apply in_or_app. right. now left.
  - now rewrite E3.
  - now rewrite E2.
  - now rewrite E4, Hid.
Qed.

Lemma no_prompt_once_rated_witness :
  let later :=
    [InsertRating 2%N Sample.bistro Sample.owner None (mkDecimal 30 1);
     DeleteRating 2%N; DeleteOrder 31%N] in
  let db' :=
    step (InsertRating 1%N Sample.bistro Sample.alice (Some Sample.order1)
            (mkDecimal 45 1)) Sample.db0 in
  handle_order_status_rating_prompt
    (UPDATE Sample.paid_order Sample.completed_order) (run later db')
  = run later db'.
Proof.
  apply (no_prompt_once_rated Sample.db0 _ 1%N Sample.bistro Sample.alice
           Sample.order1 (mkDecimal 45 1)
           [InsertRating 2%N Sample.bistro Sample.owner None (mkDecimal 30 1);
            DeleteRating 2%N; DeleteOrder 31%N]
           Sample.paid_order Sample.completed_order
           eq_refl eq_refl eq_refl eq_refl eq_refl).
Defined.

(* ------------------------------------------------------------------ *)
(** ** More on the insert of a comment *)

(** A comment that is inserted is added once at the end of the
    comments, which keep distinct identifiers; the owner notifications
    keep referring to comments, at most one to each; and restaurants,
    posts, users, profiles and ratings are not touched. *)
Theorem insert_blog_comment_keeps_integrity (fk : customer_fkey)
  (c : BlogComment.row) (db db' : database) :
  NoDup (map BlogComment.id (blog_comments db)) ->
  notifications_reference_comments db ->
  NoDup (map BlogCommentNotification.comment_id (blog_comment_notifications db)) ->
  insert_blog_comment fk c db = Ok db' ->
  blog_comments db' = (blog_comments db ++ [c])%list
  /\ NoDup (map BlogComment.id (blog_comments db'))
  /\ notifications_reference_comments db'
  /\ NoDup (map BlogCommentNotification.comment_id
              (blog_comment_notifications db'))
  /\ restaurants db' = restaurants db
  /\ blog_posts db' = blog_posts db
  /\ users db' = users db
  /\ profiles db' = profiles db
  /\ restaurant_ratings db' = restaurant_ratings db.
Proof.
  intros Hpk Hfk Huq H.
  pose proof (insert_blog_comment_keeps_reference fk c db db' Hfk H) as Hfk'.
  apply insert_blog_comment_ok in H.
  destruct H as (Efresh & _ & a & E & ->).
  assert (Ha : blog_comments a = (blog_comments db ++ [c])%list
               /\ NoDup (map BlogCommentNotification.comment_id
                           (blog_comment_notifications a))
               /\ restaurants a = restaurants db
               /\ blog_posts a = blog_posts db
               /\ users a = users db
               /\ profiles a = profiles db
               /\ restaurant_ratings a = restaurant_ratings db).
  { unfold handle_blog_comment_notification in E.
    destruct (BlogComment.parent_comment_id c).
    - injection E as <-. repeat split. exact Huq.
    - destruct (restaurant_of_post _ _).
      + apply insert_blog_comment_notification_ok in E.
        destruct E as (Edup & _ & ->). cbn. repeat split.
        rewrite map_app. cbn [map].
        apply NoDup_snoc; [exact Huq|].
        intros Hin. apply in_map_iff in Hin. destruct Hin as [m [Hm Hmin]].
        cbn in Edup.
        assert (Hex : existsb
                        (fun m => uuid_eqb (BlogCommentNotification.comment_id m)
                                    (BlogComment.id c))
                        (blog_comment_notifications db) = true).
        { apply existsb_exists. exists m. split; [exact Hmin|].
          now apply N.eqb_eq. }
        congruence.
      + injection E as <-. repeat split. exact Huq. }
  destruct Ha as (A1 & A2 & A3 & A4 & A5 & A6 & A7).
  assert (Hr : forall d,
             blog_comments (handle_blog_comment_reply c d) = blog_comments d
             /\ blog_comment_notifications (handle_blog_comment_reply c d)
                = blog_comment_notifications d
             /\ restaurants (handle_blog_comment_reply c d) = restaurants d
             /\ blog_posts (handle_blog_comment_reply c d) = blog_posts d
             /\ users (handle_blog_comment_reply c d) = users d
             /\ profiles (handle_blog_comment_reply c d) = profiles d
             /\ restaurant_ratings (handle_blog_comment_reply c d)
                = restaurant_ratings d).
  { intros d. unfold handle_blog_comment_reply.
    destruct (BlogComment.parent_comment_id c) as [p|]; [|repeat split].
    destruct (comment_author d p); repeat split. }
  destruct (Hr a) as (R1 & R2 & R3 & R4 & R5 & R6 & R7).
  rewrite R1, R2, R3, R4, R5, R6, R7.
  split; [exact A1|]. split.
  - rewrite A1, map_app. cbn [map]. apply NoDup_snoc; [exact Hpk|].
    intros Hin. apply in_map_iff in Hin. destruct Hin as [x [Hx Hxin]].
    assert (Hex : existsb (fun x => uuid_eqb (BlogComment.id x) (BlogComment.id c))
                    (blog_comments db) = true).
    { apply existsb_exists. exists x. split; [exact Hxin|]. now apply N.eqb_eq. }
    congruence.
  - split; [exact Hfk'|]. repeat split; assumption.
Qed.

Lemma insert_blog_comment_keeps_integrity_witness :
  blog_comments Sample.db1 = [Sample.root]
  /\ NoDup (map BlogCommentNotification.comment_id
              (blog_comment_notifications Sample.db1)).
Proof.
  destruct (insert_blog_comment_keeps_integrity references_auth_users
              Sample.root Sample.db0 Sample.db1
              ltac:(constructor) ltac:(intros n [])
              ltac:(constructor) eq_refl)
    as (H1 & _ & _ & H4 & _).
  split; assumption.
Defined.

(** A reply is inserted exactly when its identifier is new and its
    foreign keys hold: the post exists, the author is in the table the
    comments refer to, and the parent is a comment of the table or the
    reply itself.  A reply that is inserted is added at the end of the
    comments and adds no owner notification. *)
Theorem reply_insert_outcome (fk : customer_fkey) (c : BlogComment.row)
  (db : database) (parent : uuid) :
  BlogComment.parent_comment_id c = Some parent ->
  ((exists db', insert_blog_comment fk c db = Ok db')
   <-> existsb (fun x => uuid_eqb (BlogComment.id x) (BlogComment.id c))
         (blog_comments db) = false
       /\ existsb (fun bp => uuid_eqb (BlogPost.id bp) (BlogComment.blog_post_id c))
            (blog_posts db) = true
       /\ customer_known fk db (BlogComment.customer_id c) = true
       /\ existsb (fun x => uuid_eqb (BlogComment.id x) parent)
            (blog_comments db ++ [c]) = true)
  /\ (forall db',
        insert_blog_comment fk c db = Ok db' ->
        blog_comments db' = (blog_comments db ++ [c])%list
        /\ blog_comment_notifications db' = blog_comment_notifications db).
Proof.
  intros Hp.
  assert (Ho : forall d, handle_blog_comment_notification c d = Ok d).
  { intros d. unfold handle_blog_comment_notification. now rewrite Hp. }
  assert (Hr : forall d,
             blog_comments (handle_blog_comment_reply c d) = blog_comments d
             /\ blog_comment_notifications (handle_blog_comment_reply c d)
                = blog_comment_notifications d).
  { intros d. unfold handle_blog_comment_reply. rewrite Hp.
    destruct (comment_author d parent); split; reflexivity. }
  split; [split|].
  - intros [db' H]. apply insert_blog_comment_ok in H.
    destruct H as (Hfresh & Hrefs & _).
    unfold blog_comment_references in Hrefs.
    rewrite customer_known_with_comments, Hp in Hrefs.
    apply andb_true_iff in Hrefs. destruct Hrefs as [Hrefs Hparent].
    apply andb_true_iff in Hrefs. destruct Hrefs as [Hpost Hc].
    repeat split; assumption.
  - intros (Hfresh & Hpost & Hc & Hparent).
    unfold insert_blog_comment. rewrite Hfresh.
    unfold blog_comment_references.
    rewrite customer_known_with_comments, Hp, Hc.
    cbn [blog_posts blog_comments set_blog_comments].
    rewrite Hpost, Hparent. cbn [negb andb]. rewrite Ho. cbn [bind].
    eexists. reflexivity.
  - intros db' H. apply insert_blog_comment_ok in H.
    destruct H as (_ & _ & a & Ha & ->). rewrite Ho in Ha.
    injection Ha as <-.
    destruct (Hr (set_blog_comments (blog_comments db ++ [c]) db)) as [R1 R2].
    rewrite R1, R2. split; reflexivity.
Qed.

Lemma reply_insert_outcome_witness :
  exists db',
    insert_blog_comment references_auth_users Sample.reply Sample.db1 = Ok db'
    /\ blog_comment_notifications db' = blog_comment_notifications Sample.db1.
Proof.
  pose proof (reply_insert_outcome references_auth_users Sample.reply
                Sample.db1 Sample.root_comment eq_refl) as [Hiff Hok].
  destruct (proj2 Hiff) as [db' Hdb'].
  { repeat split. }
  exists db'. split; [exact Hdb'|]. exact (proj2 (Hok db' Hdb')).
Defined.

(* ------------------------------------------------------------------ *)
(** ** The corrected name fix *)

Lemma nullif_empty_some (t : option string) (n : string) :
  nullif_empty t = Some n -> t = Some n /\ n <> EmptyString.
Proof.
  destruct t as [s|]; cbn [nullif_empty]; [|discriminate].
  destruct (String.eqb s "") eqn:E; [discriminate|].
  intros H. injection H as <-. split; [reflexivity|].
  now apply String.eqb_neq.
Qed.

(** The name the corrected fix computes is never an empty entry of the
    metadata: it is empty only as the part of the address before the at
    sign.  It is the name the sign-up trigger writes whenever the
    metadata has no empty full_name or name and no user_name. *)
Theorem get_user_display_name_spec (u : SignUp.row) :
  (get_user_display_name (SignUp.raw_user_meta_data u) (SignUp.email u)
   = Some EmptyString ->
   exists e, SignUp.email u = Some e /\ split_part_at_1 e = EmptyString)
  /\ (json_text (SignUp.raw_user_meta_data u) "full_name" <> Some EmptyString ->
      json_text (SignUp.raw_user_meta_data u) "name" <> Some EmptyString ->
      nullif_empty (json_text (SignUp.raw_user_meta_data u) "user_name") = None ->
      get_user_display_name (SignUp.raw_user_meta_data u) (SignUp.email u)
      = sign_up_name u).
Proof.
  unfold get_user_display_name, sign_up_name. split.
  - intros H. cbn [coalesce_all] in H.
    destruct (nullif_empty (json_text _ "full_name")) as [a|] eqn:Ea.
    { injection H as ->. apply nullif_empty_some in Ea. now destruct Ea. }
    destruct (nullif_empty (json_text _ "name")) as [b|] eqn:Eb.
    { injection H as ->. apply nullif_empty_some in Eb. now destruct Eb. }
    destruct (nullif_empty (json_text _ "user_name")) as [c|] eqn:Ec.
    { injection H as ->. apply nullif_empty_some in Ec. now destruct Ec. }
    destruct (SignUp.email u) as [e|]; cbn [option_map] in H; [|discriminate].
    exists e. split; [reflexivity|]. now injection H.
  - intros Hf Hn ->.
    assert (K : forall t, t <> Some EmptyString -> nullif_empty t = t).
    { intros [s|] Hs; cbn [nullif_empty]; [|reflexivity].
      destruct (String.eqb s "") eqn:E; [|reflexivity].
      apply String.eqb_eq in E. subst s. now elim Hs. }
    rewrite (K _ Hf), (K _ Hn). cbn [coalesce_all].
    destruct (json_text _ "full_name"); [reflexivity|].
    destruct (json_text _ "name"); reflexivity.
Qed.

Lemma get_user_display_name_spec_witness :
  get_user_display_name [("name", "Alice")] (Some "alice@example.org")
  = sign_up_name (SignUp.mk 5%N (Some "alice@example.org") [("name", "Alice")]).
Proof.
  apply (proj2 (get_user_display_name_spec
                  (SignUp.mk 5%N (Some "alice@example.org") [("name", "Alice")]))).
  - discriminate.
  - discriminate.
  - reflexivity.
Defined.

(** The update of the corrected fix changes no identifier and no name
    that is not NULL: a profile whose name is the empty string is
    selected by the WHERE clause and keeps the empty name.  A profile
    with a NULL name and a user gets the computed name, and the user's
    address when it had none. *)
Theorem update_missing_names_spec (us : list SignUp.row)
  (ps : list ProfileRecord.row) :
  map ProfileRecord.id (update_missing_names us ps) = map ProfileRecord.id ps
  /\ Forall2 (fun p q => ProfileRecord.full_name p <> None ->
                         ProfileRecord.full_name q = ProfileRecord.full_name p)
       ps (update_missing_names us ps)
  /\ (forall p u,
        In p ps ->
        find (fun u => uuid_eqb (ProfileRecord.id p) (SignUp.id u)) us = Some u ->
        ProfileRecord.full_name p = None ->
        In (ProfileRecord.mk (ProfileRecord.id p)
              (get_user_display_name (SignUp.raw_user_meta_data u)
                 (SignUp.email u))
              (coalesce_all [ProfileRecord.email p; SignUp.email u]))
          (update_missing_names us ps)).
Proof.
  unfold update_missing_names. split; [|split].
  - rewrite map_map. apply map_ext. intros p.
    destruct (find _ us); [|reflexivity].
    destruct (name_missing p); reflexivity.
  - induction ps as [|p ps IH]; cbn [map]; constructor; [|exact IH].
    intros Hp. destruct (find _ us); [|reflexivity].
    destruct (name_missing p); [|reflexivity].
    cbn [ProfileRecord.full_name coalesce_all].
    destruct (ProfileRecord.full_name p); [reflexivity|now elim Hp].
  - intros p u Hin Hu Hname.
    apply in_map_iff. exists p. split; [|exact Hin].
    rewrite Hu. unfold name_missing. rewrite Hname. cbn [coalesce_all].
    destruct (get_user_display_name _ _); reflexivity.
Qed.

Lemma update_missing_names_spec_witness :
  In (ProfileRecord.mk 5%N (Some "Alice") (Some "alice@example.org"))
    (update_missing_names
       [SignUp.mk 5%N (Some "alice@example.org") [("name", "Alice")]]
       [ProfileRecord.mk 5%N None None]).
Proof.
  apply (proj2 (proj2 (update_missing_names_spec
                         [SignUp.mk 5%N (Some "alice@example.org")
                            [("name", "Alice")]]
                         [ProfileRecord.mk 5%N None None]))
           (ProfileRecord.mk 5%N None None)
           (SignUp.mk 5%N (Some "alice@example.org") [("name", "Alice")])
           (or_introl eq_refl) eq_refl eq_refl).
Defined.
